(** * radxa_flash_tool: a shallow embedding of [flashing_tool.py]

    The program drives an interactive flashing utility through
    [pexpect].  The embedding has three layers:

    - text: Python [str] values as [string], [bytes.decode], the regular
      expressions of the source as a small backtracking matcher,
      [re.findall], [re.search], [int] and [str];
    - the child process: a [pexpect.spawn] object as a buffer and the
      output still to come, with [expect] and [sendline];
    - the controller: the methods of [UpgradeTool] in a state and
      exception monad whose state is the object and the trace of what
      the program did (commands sent, log records, console output). *)

From Stdlib Require Import ZArith String Ascii List Bool Lia.
From Stdlib Require Import Numbers.DecimalString.
Import ListNotations.
Open Scope string_scope.
Open Scope Z_scope.

(** ** Text *)

Module Text.

(** Characters are code points below 256.  The text of the tool is
    ASCII, where the bytes that [expect] matches and the characters that
    [decode] gives are the same. *)
Definition code (c : ascii) : nat := nat_of_ascii c.

(** [\d]: the decimal digits.  Below 256 the Unicode class and the bytes
    class agree: [0-9]. *)
Definition is_digit (c : ascii) : bool :=
  (Nat.leb 48 (code c) && Nat.leb (code c) 57)%bool.

(** [\D] *)
Definition is_nondigit (c : ascii) : bool := negb (is_digit c).

(** [\s] of a [str] pattern: tab to carriage return, the four
    separators 28..31, space, and NEL and NBSP. *)
Definition is_space (c : ascii) : bool :=
  let n := code c in
  ((Nat.leb 9 n && Nat.leb n 13) || (Nat.leb 28 n && Nat.leb n 32)
   || Nat.eqb n 133 || Nat.eqb n 160)%bool.

(** [[0-9A-Fa-f]] *)
Definition is_hex (c : ascii) : bool :=
  let n := code c in
  ((Nat.leb 48 n && Nat.leb n 57) || (Nat.leb 65 n && Nat.leb n 70)
   || (Nat.leb 97 n && Nat.leb n 102))%bool.

Fixpoint all_chars (p : ascii -> bool) (s : string) : bool :=
  match s with
  | EmptyString => true
  | String c s' => (p c && all_chars p s')%bool
  end.

(** [s.startswith(l)], returning what follows [l]. *)
Fixpoint strip (l s : string) : option string :=
  match l with
  | EmptyString => Some s
  | String a l' =>
      match s with
      | String b s' => if Ascii.eqb a b then strip l' s' else None
      | EmptyString => None
      end
  end.

Definition startswith (s l : string) : bool :=
  match strip l s with Some _ => true | None => false end.

(** [needle in hay] *)
Fixpoint str_in (needle hay : string) : bool :=
  if startswith hay needle then true
  else match hay with
       | EmptyString => false
       | String _ hay' => str_in needle hay'
       end.

(** [int(s)] on a string of decimal digits. *)
Fixpoint int_acc (acc : Z) (s : string) : Z :=
  match s with
  | EmptyString => acc
  | String c s' => int_acc (10 * acc + (Z.of_nat (code c) - 48)) s'
  end.

Definition int (s : string) : Z := int_acc 0 s.

(** [str(n)] *)
Definition str (n : Z) : string := NilEmpty.string_of_int (Z.to_int n).

(** [s * n]: repetition, empty when [n] is not positive. *)
Definition repeat_str (s : string) (n : Z) : string :=
  String.concat "" (List.repeat s (Z.to_nat n)).

(** *** [bytes.decode("utf-8")]

    The child's output is bytes, and a [string] also stands for them.
    Decoding is strict: bytes that are not well-formed UTF-8 are
    [Undecodable] (Python raises [UnicodeDecodeError]).  Well-formed
    bytes are a text: one byte below 128 is its own character, and the
    two-byte sequences that begin with 194 or 195 are the characters 128
    to 255.  Every other well-formed sequence is a character above 255,
    which [string] does not hold: such a text is [Beyond]. *)

Inductive decoding : Type :=
| Decoded (text : string)
| Undecodable
| Beyond.

Definition in_range (lo hi : nat) (c : ascii) : bool :=
  (Nat.leb lo (code c) && Nat.leb (code c) hi)%bool.

Definition is_ascii (c : ascii) : bool := Nat.ltb (code c) 128.

(** A continuation byte: [10xxxxxx]. *)
Definition continuation (c : ascii) : bool := in_range 128 191 c.

(** The second byte of a three-byte sequence: no overlong form after
    224, no surrogate after 237. *)
Definition second_of_three (c1 c2 : ascii) : bool :=
  if Nat.eqb (code c1) 224 then in_range 160 191 c2
  else if Nat.eqb (code c1) 237 then in_range 128 159 c2
  else continuation c2.

(** The second byte of a four-byte sequence: no overlong form after 240,
    nothing above U+10FFFF after 244. *)
Definition second_of_four (c1 c2 : ascii) : bool :=
  if Nat.eqb (code c1) 240 then in_range 144 191 c2
  else if Nat.eqb (code c1) 244 then in_range 128 143 c2
  else continuation c2.

(** The character of a two-byte sequence that begins with 194 or 195. *)
Definition two_byte_char (c1 c2 : ascii) : ascii :=
  ascii_of_nat ((code c1 - 192) * 64 + (code c2 - 128)).

(** A character in front of what the rest decodes to. *)
Definition push (c : ascii) (r : decoding) : decoding :=
  match r with
  | Decoded text => Decoded (String c text)
  | Undecodable => Undecodable
  | Beyond => Beyond
  end.

(** A character above 255 in front of what the rest decodes to. *)
Definition wide (r : decoding) : decoding :=
  match r with
  | Undecodable => Undecodable
  | Decoded _ | Beyond => Beyond
  end.

Fixpoint decode (b : string) : decoding :=
  match b with
  | EmptyString => Decoded EmptyString
  | String c1 b1 =>
      if is_ascii c1 then push c1 (decode b1)
      else if in_range 194 223 c1 then
        match b1 with
        | String c2 b2 =>
            if continuation c2 then
              if Nat.leb (code c1) 195
              then push (two_byte_char c1 c2) (decode b2)
              else wide (decode b2)
            else Undecodable
        | EmptyString => Undecodable
        end
      else if in_range 224 239 c1 then
        match b1 with
        | String c2 (String c3 b3) =>
            if (second_of_three c1 c2 && continuation c3)%bool
            then wide (decode b3)
            else Undecodable
        | _ => Undecodable
        end
      else if in_range 240 244 c1 then
        match b1 with
        | String c2 (String c3 (String c4 b4)) =>
            if (second_of_four c1 c2 && continuation c3 && continuation c4)%bool
            then wide (decode b4)
            else Undecodable
        | _ => Undecodable
        end
      else Undecodable
  end.

End Text.

(** ** Regular expressions

    The fragment the source uses: a pattern is a sequence of literal
    text, single characters of a class, greedy repetitions of a class
    and capturing groups around a [+] repetition.  Matching backtracks
    as Python's [re] does: a repetition first takes all it can and gives
    characters back one at a time when what follows fails. *)

Module Re.
Import Text.

Inductive atom : Type :=
| Lit (l : string)                 (* literal text *)
| One (p : ascii -> bool)          (* one character of a class *)
| Star (p : ascii -> bool)         (* class* *)
| Plus (p : ascii -> bool)         (* class+ *)
| Cap (p : ascii -> bool).         (* (class+) *)

Definition regex := list atom.

(** The result of a match: the groups, the matched text (group 0) and
    the text after the match. *)
Record found : Type := mkFound
  { groups : list string; matched : string; rest : string }.

(** Greedy repetition with backtracking; [k] continues with the text
    taken and the text left. *)
Fixpoint greedy {R : Type} (p : ascii -> bool)
    (k : string -> string -> option R) (s : string) : option R :=
  match s with
  | String c s' =>
      if p c then
        match greedy p (fun t => k (String c t)) s' with
        | Some r => Some r
        | None => k EmptyString s
        end
      else k EmptyString s
  | EmptyString => k EmptyString s
  end.

(** Match [re] at the start of [s]; [caps] are the groups closed so far
    (latest first) and [acc] the text matched so far. *)
Fixpoint match_at (re : regex) (caps : list string) (acc s : string)
  : option found :=
  match re with
  | [] => Some (mkFound (rev caps) acc s)
  | Lit l :: re' =>
      match strip l s with
      | Some s' => match_at re' caps (acc ++ l) s'
      | None => None
      end
  | One p :: re' =>
      match s with
      | String c s' =>
          if p c then match_at re' caps (acc ++ String c "") s' else None
      | EmptyString => None
      end
  | Star p :: re' =>
      greedy p (fun t s' => match_at re' caps (acc ++ t) s') s
  | Plus p :: re' =>
      match s with
      | String c s' =>
          if p c then
            greedy p (fun t s'' => match_at re' caps (acc ++ String c t) s'') s'
          else None
      | EmptyString => None
      end
  | Cap p :: re' =>
      match s with
      | String c s' =>
          if p c then
            greedy p (fun t s'' =>
                        match_at re' (String c t :: caps) (acc ++ String c t) s'') s'
          else None
      | EmptyString => None
      end
  end.

Definition rmatch (re : regex) (s : string) : option found :=
  match_at re [] "" s.

(** [re.search]: the leftmost match, with the text before it. *)
Fixpoint search (re : regex) (s : string) : option (string * found) :=
  match rmatch re s with
  | Some f => Some ("", f)
  | None =>
      match s with
      | String c s' =>
          match search re s' with
          | Some (b, f) => Some (String c b, f)
          | None => None
          end
      | EmptyString => None
      end
  end.

(** [re.findall] for a pattern with groups: the groups of the
    non-overlapping matches, left to right.  After a match the scan
    resumes where the match ended (one character further when the match
    was empty).  [n] bounds the number of positions tried. *)
Fixpoint findall_from (n : nat) (re : regex) (s : string)
  : list (list string) :=
  match n with
  | O => []
  | S n' =>
      match rmatch re s with
      | Some f =>
          groups f ::
            match matched f, s with
            | EmptyString, String _ s' => findall_from n' re s'
            | EmptyString, EmptyString => []
            | String _ _, _ => findall_from n' re (rest f)
            end
      | None =>
          match s with
          | String _ s' => findall_from n' re s'
          | EmptyString => []
          end
      end
  end.

Definition findall (re : regex) (s : string) : list (list string) :=
  findall_from (S (String.length s)) re s.

End Re.

(** ** The patterns of the source *)

Module Pat.
Import Text Re.

(** ["Rescan press <R>,Quit press <Q>:"] (line 80) *)
Definition rescan_prompt : regex := [Lit "Rescan press <R>,Quit press <Q>:"].

(** ["Found (\d+) rockusb,Select input DevNo,Rescan press <R>,Quit press <Q>:"]
    (line 93) *)
Definition found_prompt : regex :=
  [Lit "Found "; Cap is_digit;
   Lit " rockusb,Select input DevNo,Rescan press <R>,Quit press <Q>:"].

(** ["Rockusb>"] (lines 109, 131, 153) *)
Definition rockusb_prompt : regex := [Lit "Rockusb>"].

(** [r"Write LBA from file \(\d+%\)"] (line 175) *)
Definition progress_line : regex :=
  [Lit "Write LBA from file ("; Plus is_digit; Lit "%)"].

(** [r"\((\d+)%\)"] (line 179) *)
Definition percent_group : regex := [Lit "("; Cap is_digit; Lit "%)"].

(** [r"DevNo\s*=\s*(\d+)\DVid=0x([0-9A-Fa-f]+),Pid=0x([0-9A-Fa-f]+),LocationID=(\d+)"]
    (line 97) *)
Definition descriptor : regex :=
  [Lit "DevNo"; Star is_space; Lit "="; Star is_space; Cap is_digit;
   One is_nondigit; Lit "Vid=0x"; Cap is_hex; Lit ",Pid=0x"; Cap is_hex;
   Lit ",LocationID="; Cap is_digit].

End Pat.

(** ** Devices and the two parsers *)

Import Text Re.

(** [RadxaDevice] (lines 9-14) *)
Record RadxaDevice : Type := mkRadxaDevice
  { devno : Z; vid : string; pid : string; location_id : Z }.

(** The device parser: lines 97-102 of [initial_prompt].  [findall]
    yields one tuple of four groups per match. *)
Definition device_of_groups (g : list string) : option RadxaDevice :=
  match g with
  | [d; v; p; l] => Some (mkRadxaDevice (int d) v p (int l))
  | _ => None
  end.

Fixpoint devices_of (gs : list (list string)) : list RadxaDevice :=
  match gs with
  | [] => []
  | g :: gs' =>
      match device_of_groups g with
      | Some d => d :: devices_of gs'
      | None => devices_of gs'
      end
  end.

Definition parse_devices (output : string) : list RadxaDevice :=
  devices_of (findall Pat.descriptor output).

(** Line 179: [int(re.search(r"\((\d+)%\)", progress_message).group(1))];
    [None] stands for the [AttributeError] of a search that finds
    nothing. *)
Definition progress_percentage (progress_message : string) : option Z :=
  match search Pat.percent_group progress_message with
  | Some (_, f) =>
      match groups f with
      | g :: _ => Some (int g)
      | [] => None
      end
  | None => None
  end.

(** The progress parser: what lines 175-179 of [writing_lba] obtain from
    a piece of output: the first progress marker, and its percentage. *)
Definition parse_progress (line : string) : option Z :=
  match search Pat.progress_line line with
  | Some (_, f) => progress_percentage (matched f)
  | None => None
  end.

(** ** The child process

    A [pexpect.spawn] object.  What the external process will write is
    given in advance as a list of chunks: text, or a silence of some
    seconds.  The end of the list is the end of the stream.  [expect]
    follows pexpect's loop: search the buffer, otherwise read the next
    chunk; at the end of the stream, or when the silence outlasts the
    time left, give the index of [EOF] or [TIMEOUT] in the pattern list,
    or raise when it is not listed. *)

Inductive chunk : Type :=
| Data (text : string)
| Silence (seconds : nat).

Record spawn : Type := mkSpawn
  { buffer : string;            (* read, not yet matched *)
    pending : list chunk;       (* not yet read *)
    before : string;            (* child.before *)
    last_match : option found   (* child.match, when it is a match object *) }.

Inductive waited : Type :=
| Hit (b : string) (f : found) (pend : list chunk)
| AtEof (b : string)
| TimedOut (b : string) (pend : list chunk).

Fixpoint expect_loop (re : regex) (timeout : option nat) (buf : string)
    (pend : list chunk) : waited :=
  match search re buf with
  | Some (b, f) => Hit b f pend
  | None =>
      match pend with
      | [] => AtEof buf
      | Data t :: pend' => expect_loop re timeout (buf ++ t) pend'
      | Silence d :: pend' =>
          match timeout with
          | None => expect_loop re None buf pend'
          | Some t =>
              if Nat.leb t d then TimedOut buf (Silence (d - t)%nat :: pend')
              else expect_loop re (Some (t - d)%nat) buf pend'
          end
      end
  end.

(** The entries of a pattern list after its regular expression. *)
Inductive special : Type := P_EOF | P_TIMEOUT.

Definition special_eqb (a b : special) : bool :=
  match a, b with
  | P_EOF, P_EOF | P_TIMEOUT, P_TIMEOUT => true
  | _, _ => false
  end.

(** The index of [sp] in the pattern list [re :: more]. *)
Fixpoint index_of (sp : special) (more : list special) (i : Z) : option Z :=
  match more with
  | [] => None
  | x :: more' => if special_eqb sp x then Some i else index_of sp more' (i + 1)
  end.

(** ** The controller's monad *)

Inductive exn : Type := EOF | TIMEOUT | AttributeError | UnicodeDecodeError.

Inductive level : Type := INFO | ERROR.

(** What the program does to the outside, latest first in a trace. *)
Inductive event : Type :=
| Spawned (cmd : string)               (* pexpect.spawn *)
| Sent (text : string)                 (* written to the child *)
| Logged (lv : level) (msg : string)   (* logging.info / logging.error *)
| Printed (text : string)              (* print *)
| Progress (pct : Z).                  (* the progress line, lines 183-186 *)

(** [UpgradeTool] (lines 57-60) *)
Record UpgradeTool : Type := mkUpgradeTool
  { ul_file : string;
    im_file : string;
    command : string;
    child : option spawn;
    num_devices : Z;
    devices : list RadxaDevice }.

Record state : Type := mkState { self : UpgradeTool; trace : list event }.

Inductive result (A : Type) : Type :=
| Returned (a : A) (s : state)
| Raised (e : exn) (s : state)
| Hung (s : state)               (* the loop bound ran out *)
| Outside (s : state).           (* a text that [string] does not hold *)
Arguments Returned {A} a s.
Arguments Raised {A} e s.
Arguments Hung {A} s.
Arguments Outside {A} s.

Definition M (A : Type) : Type := state -> result A.

Definition ret {A} (a : A) : M A := fun s => Returned a s.

Definition bind {A B} (m : M A) (k : A -> M B) : M B :=
  fun s =>
    match m s with
    | Returned a s' => k a s'
    | Raised e s' => Raised e s'
    | Hung s' => Hung s'
    | Outside s' => Outside s'
    end.

Definition raise {A} (e : exn) : M A := fun s => Raised e s.

Definition hang {A} : M A := fun s => Hung s.

Definition outside {A} : M A := fun s => Outside s.

(** [try: m except: h] *)
Definition try_except {A} (m : M A) (h : exn -> M A) : M A :=
  fun s =>
    match m s with
    | Raised e s' => h e s'
    | r => r
    end.

Declare Scope monad_scope.
Delimit Scope monad_scope with monad.
Notation "x <- m ;; k" := (bind m (fun x => k))
  (at level 61, m at next level, right associativity) : monad_scope.
Notation "m ;; k" := (bind m (fun _ => k))
  (at level 61, right associativity) : monad_scope.
Open Scope monad_scope.

Definition final {A} (r : result A) : state :=
  match r with
  | Returned _ s | Raised _ s | Hung s | Outside s => s
  end.

Definition emit (e : event) : M unit :=
  fun s => Returned tt (mkState (self s) (e :: trace s)).

Definition logging (lv : level) (msg : string) : M unit := emit (Logged lv msg).

(** [print(text)] *)
Definition print (text : string) : M unit :=
  emit (Printed (text ++ String "010" "")).

Definition get {A} (field : UpgradeTool -> A) : M A :=
  fun s => Returned (field (self s)) s.

Definition set_child (c : option spawn) : M unit :=
  fun s =>
    let t := self s in
    Returned tt
      (mkState (mkUpgradeTool (ul_file t) (im_file t) (command t) c
                  (num_devices t) (devices t)) (trace s)).

Definition set_num_devices (n : Z) : M unit :=
  fun s =>
    let t := self s in
    Returned tt
      (mkState (mkUpgradeTool (ul_file t) (im_file t) (command t) (child t)
                  n (devices t)) (trace s)).

Definition set_devices (ds : list RadxaDevice) : M unit :=
  fun s =>
    let t := self s in
    Returned tt
      (mkState (mkUpgradeTool (ul_file t) (im_file t) (command t) (child t)
                  (num_devices t) ds) (trace s)).

(** [self.child]; [None] has no methods. *)
Definition the_child : M spawn :=
  c <- get child ;;
  match c with
  | Some c => ret c
  | None => raise AttributeError
  end.

(** [self.child.sendline(text)] *)
Definition sendline (text : string) : M unit :=
  _ <- the_child ;;
  emit (Sent (text ++ String "010" "")).

(** [self.child.expect([re] + more, timeout=timeout)] *)
Definition expect (re : regex) (more : list special) (timeout : option nat)
  : M Z :=
  c <- the_child ;;
  match expect_loop re timeout (buffer c) (pending c) with
  | Hit b f pend =>
      set_child (Some (mkSpawn (rest f) pend b (Some f))) ;;
      ret 0
  | AtEof b =>
      set_child (Some (mkSpawn "" [] b None)) ;;
      match index_of P_EOF more 1 with
      | Some i => ret i
      | None => raise EOF
      end
  | TimedOut b pend =>
      set_child (Some (mkSpawn b pend b None)) ;;
      match index_of P_TIMEOUT more 1 with
      | Some i => ret i
      | None => raise TIMEOUT
      end
  end.

(** [b.decode("utf-8")]: the text, or [UnicodeDecodeError].  Where the
    text has a character above 255 the run is not followed further. *)
Definition decode_utf8 (b : string) : M string :=
  match decode b with
  | Decoded text => ret text
  | Undecodable => raise UnicodeDecodeError
  | Beyond => outside
  end.

(** [self.child.before.decode("utf-8")] *)
Definition child_before : M string :=
  c <- the_child ;; decode_utf8 (before c).

(** [self.child.match.group(i)] *)
Definition child_match_group (i : nat) : M string :=
  c <- the_child ;;
  match last_match c with
  | Some f =>
      match i with
      | O => ret (matched f)
      | S j => match nth_error (groups f) j with
               | Some g => ret g
               | None => raise AttributeError
               end
      end
  | None => raise AttributeError
  end.

(** [for x in l: body(x)] *)
Fixpoint for_each {A} (l : list A) (body : A -> M unit) : M unit :=
  match l with
  | [] => ret tt
  | x :: l' => body x ;; for_each l' body
  end.

(** ** The controller: the methods of [UpgradeTool] *)

Definition maskrom_hint : string :=
  "If the device is connected try to set it in Maskrom mode https://wiki.radxa.com/Rock3/installusb-install-radxa-cm3-io.".

(** The text of the progress line (lines 183-184): the bar and the
    percentage right-aligned in three columns. *)
Definition progress_bar (progress_percentage : Z) : string :=
  "[" ++ repeat_str "=" (progress_percentage / 2)
      ++ repeat_str " " ((100 - progress_percentage) / 2) ++ "]".

Definition format_3d (n : Z) : string :=
  let s := str n in
  repeat_str " " (3 - Z.of_nat (String.length s)) ++ s.

Definition progress_text (progress_percentage : Z) : string :=
  String "013" "" ++ String "027" "[92mProgress: "
    ++ format_3d progress_percentage ++ "% "
    ++ progress_bar progress_percentage ++ String "027" "[0m".

(** Lines 79-80 *)
Definition expect_initial_prompt : M unit :=
  _ <- expect Pat.rescan_prompt [P_EOF] None ;; ret tt.

(** Lines 104-105 *)
Definition rescan_devices : M unit := sendline "r".

(** Lines 83-102 *)
Definition initial_prompt : M unit :=
  expect_initial_prompt ;;
  output <- child_before ;;
  if str_in "No found rockusb" output then
    logging INFO "No Rescan prompt found."
  else if str_in "Select input DevNo" output then
    rescan_devices ;;
    _ <- expect Pat.found_prompt [] None ;;
    count <- child_match_group 1 ;;
    set_num_devices (int count) ;;
    set_devices (parse_devices output)
  else ret tt.

(** Lines 129-148 *)
Definition upgrade_loader (location : Z) : M unit :=
  try_except
    (_ <- expect Pat.rockusb_prompt [P_TIMEOUT] (Some 500%nat) ;;
     output <- child_before ;;
     if str_in "Upgrade loader ok" output then
       logging INFO ("Upgrade loader for device in location " ++ str location
                       ++ " was successful.")
     else if str_in "Download Boot Fail" output then
       logging ERROR ("Upgrade loader command for device in location "
                        ++ str location ++ " failed.") ;;
       logging INFO maskrom_hint
     else
       logging ERROR ("Unknow error for device in location " ++ str location ++ "."))
    (fun e =>
       match e with
       | TIMEOUT => logging ERROR "Upgrade loader command timed out."
       | _ => raise e
       end).

(** The loop of lines 173-191; [fuel] bounds the iterations. *)
Fixpoint writing_lba_loop (fuel : nat) (last_percentage : Z) : M unit :=
  match fuel with
  | O => hang
  | S fuel' =>
      index <- expect Pat.progress_line [P_EOF] None ;;
      if index =? 0 then
        group_0 <- child_match_group 0 ;;
        progress_message <- decode_utf8 group_0 ;;
        match progress_percentage progress_message with
        | None => raise AttributeError
        | Some pct =>
            last_percentage' <-
              (if negb (pct =? last_percentage)
               then emit (Progress pct) ;; ret pct
               else ret last_percentage) ;;
            if pct =? 100 then
              print "" ;;
              logging INFO "Write process completed."
            else writing_lba_loop fuel' last_percentage'
        end
      else writing_lba_loop fuel' last_percentage
  end.

(** Lines 172-197.  The [else] of line 193 belongs to [while True] and
    never runs. *)
Definition writing_lba (fuel : nat) : M unit :=
  writing_lba_loop fuel (-1) ;;
  sendline "cd" ;;
  expect_initial_prompt.

(** Lines 150-169 *)
Definition write_lba (fuel : nat) (location : Z) : M unit :=
  try_except
    (_ <- expect Pat.rockusb_prompt [P_TIMEOUT] (Some 20%nat) ;;
     output <- child_before ;;
     if str_in "Write LBA failed!" output then
       logging ERROR ("Write LBA for device in location " ++ str location
                        ++ " failed") ;;
       logging INFO maskrom_hint
     else
       logging INFO ("Writing LBA for device in location " ++ str location ++ ".") ;;
       writing_lba fuel)
    (fun e =>
       match e with
       | TIMEOUT => logging ERROR "Upgrade loader command timed out."
       | _ => raise e
       end).

Definition ul_command (t : UpgradeTool) : string :=
  "ul " ++ ul_file t ++ " -noreset".

Definition wl_command (t : UpgradeTool) : string :=
  "wl 0 " ++ im_file t.

(** Lines 112-125 *)
Definition send_upgrade_commands (fuel : nat) (device_location : Z) : M unit :=
  ul <- get ul_command ;;
  wl <- get wl_command ;;
  for_each [ul; wl]
    (fun command =>
       sendline command ;;
       (if startswith command "ul" then upgrade_loader device_location
        else ret tt) ;;
       (if startswith command "wl" then write_lba fuel device_location
        else ret tt)).

(** Lines 107-110 *)
Definition run_upgrade (fuel : nat) (device : RadxaDevice) : M unit :=
  sendline (str (devno device)) ;;
  _ <- expect Pat.rockusb_prompt [] None ;;
  send_upgrade_commands fuel (location_id device).

(** The body of the [try] of [run], lines 66-74. *)
Definition session (fuel : nat) : M unit :=
  initial_prompt ;;
  ds <- get devices ;;
  match ds with
  | [] =>
      logging INFO "No Radxa devices found." ;;
      logging INFO maskrom_hint
  | _ :: _ => for_each ds (run_upgrade fuel)
  end.

(** Lines 62-77.  [process] is the output of the command that is
    spawned. *)
Definition run (fuel : nat) (process : list chunk) : M unit :=
  cmd <- get command ;;
  emit (Spawned cmd) ;;
  set_child (Some (mkSpawn "" process "" None)) ;;
  try_except (session fuel)
    (fun e =>
       match e with
       | EOF => logging ERROR "An error occurred during the upgrade process."
       | _ => raise e
       end).

(** ** Construction and [main] *)

(** How the program ends: with an exit status, or never; [Unfollowed]
    is a run that the model leaves at a text outside [string]. *)
Inductive ending : Type :=
| Exited (status : Z) (history : list event)
| Never (history : list event)
| Unfollowed (history : list event).

Inductive constructed : Type :=
| Built (t : UpgradeTool)
| SystemExit (status : Z) (printed : list event).

(** Lines 36-60; [exists_] is [os.path.exists].  The set-up of the
    logging module (lines 37-43) only decides how records are shown. *)
Definition __init__ (exists_ : string -> bool) (ul_file im_file command : string)
  : constructed :=
  if exists_ ul_file then
    if exists_ im_file then
      Built (mkUpgradeTool ul_file im_file command None 0 [])
    else
      SystemExit 1 [Printed ("Image file path does not exist." ++ String "010" "")]
  else
    SystemExit 1
      [Printed ("Upgrade loader file path does not exist." ++ String "010" "")].

Definition default_command : string := "sudo ./upgrade_tool".
Definition default_ul_file : string :=
  "./RTE_Files/rk356x_spl_loader_ddr1056_v1.10.111.bin".
Definition default_im_file : string :=
  "./RTE_Files/lade-image-radxa-radxa-cm3-io-rk3566-20230505103716.gptimg".

(** The parsed command line: [-ul] and [-im], each optional. *)
Record args : Type := mkArgs { arg_ul : option string; arg_im : option string }.

Definition or_default (o : option string) (d : string) : string :=
  match o with Some s => s | None => d end.

(** Lines 200-210.  A return from [main] ends the program with status 0,
    [exit(1)] and an exception that nothing catches with status 1. *)
Definition main (exists_ : string -> bool) (a : args) (fuel : nat)
    (process : list chunk) : ending :=
  match __init__ exists_ (or_default (arg_ul a) default_ul_file)
          (or_default (arg_im a) default_im_file) default_command with
  | SystemExit status printed => Exited status printed
  | Built upgrade_tool =>
      match run fuel process (mkState upgrade_tool []) with
      | Returned _ s => Exited 0 (rev (trace s))
      | Raised _ s => Exited 1 (rev (trace s))
      | Hung s => Never (rev (trace s))
      | Outside s => Unfollowed (rev (trace s))
      end
  end.

Definition history (e : ending) : list event :=
  match e with Exited _ h | Never h | Unfollowed h => h end.

Definition exit_status (e : ending) : option Z :=
  match e with Exited st _ => Some st | Never _ | Unfollowed _ => None end.

(** ** [ColoredFormatter] (lines 17-30) *)

Module ColoredFormatter.

(** The attributes of a log record that [format] reads; [message] is
    what [logging.Formatter.format] makes of the record, which for the
    records of this program is the text that was logged. *)
Record LogRecord : Type := mkLogRecord { levelname : string; message : string }.

Definition COLORS : list (string * string) :=
  [("ERROR", String "027" "[91m");
   ("WARNING", String "027" "[93m");
   ("INFO", String "027" "[0m");
   ("DEBUG", String "027" "[94m")].

Definition RESET : string := String "027" "[0m".

(** [dict.get(key, default)] *)
Fixpoint get (d : list (string * string)) (key default : string) : string :=
  match d with
  | [] => default
  | (k, v) :: d' => if String.eqb k key then v else get d' key default
  end.

Definition format (record : LogRecord) : string :=
  let log_color := get COLORS (levelname record) "" in
  let log_message := message record in
  log_color ++ "[" ++ levelname record ++ "] " ++ log_message ++ RESET.

End ColoredFormatter.

(** The names of the levels, and a record of the controller as its
    handler shows it. *)
Definition level_name (lv : level) : string :=
  match lv with INFO => "INFO" | ERROR => "ERROR" end.

Definition shown_record (lv : level) (msg : string) : string :=
  ColoredFormatter.format (ColoredFormatter.mkLogRecord (level_name lv) msg).

(** * Vocabulary of the statements *)

(** A text that does not go on with a character of the class. *)
Definition stops (p : ascii -> bool) (s : string) : Prop :=
  match s with
  | EmptyString => True
  | String c _ => p c = false
  end.

Definition marker (ds : string) : string :=
  "Write LBA from file (" ++ ds ++ "%)".

Definition digits (ds : string) : Prop :=
  all_chars is_digit ds = true /\ ds <> "".

Definition newline : string := String "010" "".

Definition hexs (v : string) : Prop := all_chars is_hex v = true /\ v <> "".

(** A descriptor line as the specification writes it. *)
Definition descriptor_line (d v p l : string) : string :=
  "DevNo" ++ "=" ++ d ++ "," ++ "Vid=0x" ++ v ++ ",Pid=0x" ++ p
          ++ ",LocationID=" ++ l.

(** The lines of the discovery text: descriptors and noise. *)
Inductive line : Type :=
| Descriptor (d v p l : string)
| Noise (text : string).

Definition line_text (x : line) : string :=
  match x with
  | Descriptor d v p l => descriptor_line d v p l
  | Noise text => text
  end.

(** Lines joined by newlines. *)
Fixpoint unlines (xs : list line) : string :=
  match xs with
  | [] => ""
  | x :: xs' =>
      line_text x ++ match xs' with
                     | [] => ""
                     | _ :: _ => newline ++ unlines xs'
                     end
  end.

(** The devices the descriptor lines stand for. *)
Fixpoint described (xs : list line) : list RadxaDevice :=
  match xs with
  | [] => []
  | Descriptor d v p l :: xs' => mkRadxaDevice (int d) v p (int l) :: described xs'
  | Noise _ :: xs' => described xs'
  end.

(** What is left of a text after its leading white space. *)
Fixpoint after_spaces (s : string) : string :=
  match s with
  | String c s' => if is_space c then after_spaces s' else s
  | EmptyString => EmptyString
  end.

(** The text begins like a descriptor: the keyword, then, after optional
    white space, the sign [=] or nothing more. *)
Definition opens (s : string) : bool :=
  match strip "DevNo" s with
  | Some s' =>
      match after_spaces s' with
      | String c _ => Ascii.eqb c "="
      | EmptyString => true
      end
  | None => false
  end.

(** No place of the text begins like a descriptor. *)
Fixpoint no_opening (text : string) : bool :=
  (negb (opens text)
   && match text with
      | String _ text' => no_opening text'
      | EmptyString => true
      end)%bool.

(** Descriptor lines are well formed; in a noise line the keyword, where
    it occurs, is followed in the line by something other than [=]. *)
Definition line_ok (x : line) : Prop :=
  match x with
  | Descriptor d v p l => digits d /\ hexs v /\ hexs p /\ digits l
  | Noise text => no_opening text = true
  end.

(** After a descriptor comes the end of the text or a new line. *)
Definition line_end (tail : string) : Prop :=
  tail = "" \/ exists s, tail = newline ++ s.

Definition discovery_sample : list line :=
  [Noise "List of rockusb connected";
   Descriptor "0" "2207" "350a" "103";
   Noise "";
   Descriptor "01" "2207" "350A" "104";
   Noise "Found 2 rockusb,Select input DevNo,"].

(** What holds of the state a computation ends in, however it ends. *)
Definition hoare {A} (P : state -> Prop) (m : M A) (Q : state -> Prop) : Prop :=
  forall s, P s -> Q (final (m s)).

Definition preserves {A} (I : state -> Prop) (m : M A) : Prop := hoare I m I.

(** The percentages of the progress lines in a trace. *)
Fixpoint percentages (tr : list event) : list Z :=
  match tr with
  | [] => []
  | Progress p :: tr' => p :: percentages tr'
  | _ :: tr' => percentages tr'
  end.

(** No two neighbours are equal. *)
Fixpoint no_repeat (l : list Z) : Prop :=
  match l with
  | a :: l' => match l' with
               | b :: _ => a <> b
               | [] => True
               end /\ no_repeat l'
  | [] => True
  end.

(** The texts written to the child, latest first. *)
Fixpoint sent (tr : list event) : list string :=
  match tr with
  | [] => []
  | Sent text :: tr' => text :: sent tr'
  | _ :: tr' => sent tr'
  end.

(** Nothing but progress lines changes the percentages of a trace. *)
Definition not_progress (e : event) : Prop :=
  match e with Progress _ => False | _ => True end.

Definition same_percentages (ps : list Z) (s : state) : Prop :=
  percentages (trace s) = ps.

(** The invariant of the loop of [writing_lba]: the percentages written
    so far do not repeat, and the latest is [last_percentage]. *)
Definition loop_inv (last_percentage : Z) (s : state) : Prop :=
  no_repeat (percentages (trace s)) /\
  match percentages (trace s) with
  | [] => True
  | p :: _ => p = last_percentage
  end.






(** Every path exists. *)
Definition all_exist (path : string) : bool := true.

Definition sample_args : args := mkArgs (Some "loader.bin") (Some "image.img").

(** What the tool prints when it lists one device, and two devices. *)
Definition listing_one : string :=
  "List of rockusb connected" ++ newline
    ++ "DevNo=1" ++ String "009" "Vid=0x2207,Pid=0x350a,LocationID=103"
    ++ String "009" "Mode=Maskrom" ++ newline
    ++ "Found 1 rockusb,Select input DevNo,Rescan press <R>,Quit press <Q>:".

Definition listing_two : string :=
  "List of rockusb connected" ++ newline
    ++ "DevNo=1" ++ String "009" "Vid=0x2207,Pid=0x350a,LocationID=103"
    ++ String "009" "Mode=Maskrom" ++ newline
    ++ "DevNo=2" ++ String "009" "Vid=0x2207,Pid=0x350a,LocationID=104"
    ++ String "009" "Mode=Maskrom" ++ newline
    ++ "Found 2 rockusb,Select input DevNo,Rescan press <R>,Quit press <Q>:".

(** One device, flashed to the end; the stream repeats the 40% line. *)
Definition process_success : list chunk :=
  [Data listing_one; Data listing_one; Data "Rockusb>";
   Data ("Upgrade loader ok." ++ newline ++ "Rockusb>");
   Data "Write LBA from file (0%)"; Silence 30;
   Data "Write LBA from file (40%)"; Data "Write LBA from file (40%)";
   Data ("Write LBA from file (100%)" ++ newline ++ "Rockusb>");
   Data "Rescan press <R>,Quit press <Q>:"].

(** One device whose loader upload fails. *)
Definition process_loader_fails : list chunk :=
  [Data listing_one; Data listing_one; Data "Rockusb>";
   Data ("Download Boot Fail" ++ newline ++ "Rockusb>");
   Data ("Write LBA failed!" ++ newline ++ "Rockusb>")].

(** One device whose loader upload is not answered within the timeout. *)
Definition process_loader_times_out : list chunk :=
  [Data listing_one; Data listing_one; Data "Rockusb>"; Silence 510;
   Data ("Write LBA failed!" ++ newline ++ "Rockusb>")].

(** Two devices; the process dies while the first is written, after the
    40% line. *)
Definition process_dies_mid_write : list chunk :=
  [Data listing_two; Data listing_two; Data "Rockusb>";
   Data ("Upgrade loader ok." ++ newline ++ "Rockusb>");
   Silence 30; Data "Write LBA from file (40%)"].


(** The listing shows one device, the count after the rescan says two. *)
Definition process_count_mismatch : list chunk :=
  [Data listing_one; Data listing_two; Data "Rockusb>";
   Data ("Upgrade loader ok." ++ newline ++ "Rockusb>");
   Data "Write LBA from file (0%)"; Silence 30;
   Data ("Write LBA from file (100%)" ++ newline ++ "Rockusb>");
   Data "Rescan press <R>,Quit press <Q>:"].

Definition session_error : event :=
  Logged ERROR "An error occurred during the upgrade process.".

(** The tool as [__init__] builds it, and the state in which [run] starts
    its [try]. *)
Definition built (ul im : string) : UpgradeTool :=
  mkUpgradeTool ul im default_command None 0 [].

Definition spawned (ul im : string) (process : list chunk) : state :=
  mkState
    (mkUpgradeTool ul im default_command (Some (mkSpawn "" process "" None)) 0 [])
    [Spawned default_command].

(** The stream has ended and nothing is left in the buffer. *)
Definition at_eof (s : state) : Prop :=
  match child (self s) with
  | Some c => pending c = [] /\ buffer c = ""
  | None => False
  end.

(** Only the image is there. *)
Definition only_image (path : string) : bool := String.eqb path "image.img".

(** No record was logged. *)
Definition nothing_logged (tr : list event) : Prop :=
  forall lv msg, ~ In (Logged lv msg) tr.

(** The state after discovery against [process_dies_mid_write]. *)
Definition after_listing_two : state :=
  Eval vm_compute in
    final (initial_prompt (spawned "loader.bin" "image.img" process_dies_mid_write)).


(** The state after discovery against [process_count_mismatch]. *)
Definition after_count_mismatch : state :=
  Eval vm_compute in
    final (initial_prompt (spawned "loader.bin" "image.img" process_count_mismatch)).

Definition well (s : state) : Prop := child (self s) <> None.

(** The exceptions that a session can end in: the end of the stream,
    and output that does not decode. *)
Definition fatal (e : exn) : Prop := e = EOF \/ e = UnicodeDecodeError.

(** [m], started where [P] holds, returns where [Q] holds, raises a
    [fatal] exception only, or does not end. *)
Definition triple {A} (P : state -> Prop) (m : M A) (Q : A -> state -> Prop)
  : Prop :=
  forall s, P s ->
    match m s with
    | Returned a s' => Q a s'
    | Raised e _ => fatal e
    | Hung _ | Outside _ => True
    end.

Definition keeps {A} (m : M A) : Prop := triple well m (fun _ => well).

(** The child holds a match of [re]. *)
Definition matched_by (re : regex) (s : state) : Prop :=
  exists c f, child (self s) = Some c /\ last_match c = Some f
              /\ rmatch re (matched f ++ rest f) = Some f.

(** A run of white space. *)
Definition spaces (ws : string) : Prop := all_chars is_space ws = true.

(** A descriptor as the pattern of line 97 reads it: optional white
    space around [=], and any one character that is not a digit between
    the device number and [Vid]. *)
Definition descriptor_text (ws1 ws2 d : string) (sep : ascii) (v p l : string)
  : string :=
  "DevNo" ++ ws1 ++ "=" ++ ws2 ++ d
          ++ String sep ("Vid=0x" ++ v ++ ",Pid=0x" ++ p ++ ",LocationID=" ++ l).

(** [m] raises nothing but exceptions in [ok]. *)
Definition raises_only {A} (ok : exn -> Prop) (m : M A) : Prop :=
  forall s e s', m s = Raised e s' -> ok e.

Definition not_timeout (e : exn) : Prop := e <> TIMEOUT.

(** The record of the two [except pexpect.TIMEOUT] clauses (lines 147,
    168). *)
Definition timed_out_log : event :=
  Logged ERROR "Upgrade loader command timed out.".

Definition never_timed_out (s : state) : Prop := ~ In timed_out_log (trace s).

Definition other_than_timed_out (e : event) : Prop := e <> timed_out_log.

(** The trace is [tr]. *)
Definition trace_is (tr : list event) (s : state) : Prop := trace s = tr.

(** A child that will write the 100% line and then the prompt. *)
Definition about_to_complete : state :=
  mkState
    (mkUpgradeTool "loader.bin" "image.img" default_command
       (Some (mkSpawn ""
                [Data "Write LBA from file (100%)";
                 Data "Rescan press <R>,Quit press <Q>:"] "" None))
       1 [mkRadxaDevice 1 "2207" "350a" 103])
    [].

Definition completed : state :=
  Eval vm_compute in final (writing_lba 1 about_to_complete).

(** A child that rejects the write. *)
Definition about_to_reject : state :=
  mkState
    (mkUpgradeTool "loader.bin" "image.img" default_command
       (Some (mkSpawn "" [Data ("Write LBA failed!" ++ newline ++ "Rockusb>")]
                "" None))
       1 [mkRadxaDevice 1 "2207" "350a" 103])
    [].

Definition rejected : state :=
  Eval vm_compute in final (write_lba 0 103 about_to_reject).





(** The tool says that it found nothing to flash. *)
Definition process_no_hardware : list chunk :=
  [Data ("No found rockusb,Rescan press <R>,Quit press <Q>:")].

(** The level is one of the four of the table. *)
Definition known_level (name : string) : Prop :=
  In name ["ERROR"; "WARNING"; "INFO"; "DEBUG"].

(** No event is the start of a process. *)
Definition not_spawned (e : event) : Prop :=
  match e with Spawned _ => False | _ => True end.

(** After the start of the process [first], no other was started. *)
Definition one_process (first : event) (s : state) : Prop :=
  exists later, trace s = (later ++ [first])%list /\ Forall not_spawned later.

(** A device is selected and its loader upload will fail. *)
Definition about_to_upload : state :=
  mkState
    (mkUpgradeTool "loader.bin" "image.img" default_command
       (Some (mkSpawn "" [Data ("Download Boot Fail" ++ newline ++ "Rockusb>")]
                "" None))
       1 [mkRadxaDevice 1 "2207" "350a" 103])
    [].

Definition uploaded : state :=
  Eval vm_compute in
    final ((sendline (ul_command (self about_to_upload)) ;;
            upgrade_loader 103 ;; ret tt) about_to_upload).

(** * Properties *)

Example parse_progress_37 : parse_progress "Write LBA from file (37%)" = Some 37.
Proof. reflexivity. Qed.

Example parse_progress_abc : parse_progress "Write LBA from file (abc%)" = None.
Proof. reflexivity. Qed.

Example parse_progress_0_100 :
  parse_progress "Write LBA from file (0%)" = Some 0 /\
  parse_progress "xx Write LBA from file (100%) yy" = Some 100.
Proof. split; reflexivity. Qed.

Example parse_devices_two :
  parse_devices
    ("List of rockusb connected" ++ String "010" "" ++
     "DevNo=1" ++ String "009" "" ++ "Vid=0x2207,Pid=0x350a,LocationID=103" ++
     String "009" "" ++ "Mode=Maskrom" ++ String "010" "" ++
     "DevNo=2,Vid=0x2207,Pid=0x350A,LocationID=104" ++ String "010" "" ++
     "Found 2 rockusb,Select input DevNo,")
  = [mkRadxaDevice 1 "2207" "350a" 103; mkRadxaDevice 2 "2207" "350A" 104].
Proof. vm_compute. reflexivity. Qed.

Example str_examples : str 0 = "0" /\ str 12 = "12".
Proof. split; reflexivity. Qed.

(** ** Text and matching *)

Section TextFacts.

Lemma append_nil_r (s : string) : s ++ "" = s.
Proof. induction s as [|c s IH]; simpl; [reflexivity | now rewrite IH]. Qed.

Lemma append_assoc (a b c : string) : (a ++ b) ++ c = a ++ (b ++ c).
Proof. induction a as [|x a IH]; simpl; [reflexivity | now rewrite IH]. Qed.

Lemma length_append (a b : string) :
  String.length (a ++ b) = (String.length a + String.length b)%nat.
Proof. induction a as [|x a IH]; simpl; [reflexivity | now rewrite IH]. Qed.

Lemma append_cancel_l (a b c : string) : a ++ b = a ++ c -> b = c.
Proof.
  induction a as [|x a IH]; simpl; intros H; [exact H | ].
  injection H as H. auto.
Qed.

Lemma strip_append (l s : string) : strip l (l ++ s) = Some s.
Proof.
  induction l as [|a l IH]; simpl; [reflexivity | ].
  now rewrite Ascii.eqb_refl.
Qed.

Lemma strip_sound (l s s' : string) : strip l s = Some s' -> s = l ++ s'.
Proof.
  revert s; induction l as [|a l IH]; simpl; intros s H.
  - now injection H as ->.
  - destruct s as [|b s]; [discriminate | ].
    destruct (Ascii.eqb a b) eqn:E; [ | discriminate].
    apply Ascii.eqb_eq in E; subst b. now rewrite (IH _ H).
Qed.

(** A repetition that takes the whole run succeeds when what follows
    accepts it: nothing is given back. *)
Lemma greedy_run {R} (p : ascii -> bool) (t s : string) :
  forall (k : string -> string -> option R) (r : R),
    all_chars p t = true -> stops p s -> k t s = Some r ->
    greedy p k (t ++ s) = Some r.
Proof.
  induction t as [|a t IH]; simpl; intros k r Ht Hs Hk.
  - destruct s as [|c s]; simpl in *; [exact Hk | now rewrite Hs].
  - apply andb_prop in Ht as [Ha Ht]. rewrite Ha.
    now rewrite (IH (fun u => k (String a u)) r Ht Hs Hk).
Qed.

(** Whatever a repetition ends up taking is a run of the class. *)
Lemma greedy_sound {R} (p : ascii -> bool) (s : string) :
  forall (k : string -> string -> option R) (r : R),
    greedy p k s = Some r ->
    exists t s', s = t ++ s' /\ all_chars p t = true /\ k t s' = Some r.
Proof.
  induction s as [|c s IH]; simpl; intros k r H.
  - exists "", "". auto.
  - destruct (p c) eqn:Hc.
    + destruct (greedy p (fun t => k (String c t)) s) as [r'|] eqn:G.
      * injection H as <-. apply IH in G as (t & s' & -> & Ht & Hk).
        exists (String c t), s'. simpl. rewrite Hc, Ht. auto.
      * exists "", (String c s). auto.
    + exists "", (String c s). auto.
Qed.

(** A match consumes a prefix of the text. *)
Lemma match_at_sound (re : regex) :
  forall caps acc s f,
    match_at re caps acc s = Some f ->
    exists m, matched f = acc ++ m /\ s = m ++ rest f.
Proof.
  induction re as [|a re IH]; simpl; intros caps acc s f H.
  - injection H as <-. exists "". simpl. now rewrite append_nil_r.
  - destruct a as [l|p|p|p|p].
    + destruct (strip l s) as [s'|] eqn:E; [ | discriminate].
      apply strip_sound in E; subst s.
      apply IH in H as (m & Hm & ->).
      exists (l ++ m). now rewrite Hm, !append_assoc.
    + destruct s as [|c s]; [discriminate | ].
      destruct (p c); [ | discriminate].
      apply IH in H as (m & Hm & ->).
      exists (String c m). now rewrite Hm, append_assoc.
    + apply greedy_sound in H as (t & s' & -> & _ & H).
      apply IH in H as (m & Hm & ->).
      exists (t ++ m). now rewrite Hm, !append_assoc.
    + destruct s as [|c s]; [discriminate | ].
      destruct (p c); [ | discriminate].
      apply greedy_sound in H as (t & s' & -> & _ & H).
      apply IH in H as (m & Hm & ->).
      exists (String c (t ++ m)). rewrite Hm, append_assoc. simpl.
      now rewrite append_assoc.
    + destruct s as [|c s]; [discriminate | ].
      destruct (p c); [ | discriminate].
      apply greedy_sound in H as (t & s' & -> & _ & H).
      apply IH in H as (m & Hm & ->).
      exists (String c (t ++ m)). rewrite Hm, append_assoc. simpl.
      now rewrite append_assoc.
Qed.

Lemma rmatch_sound (re : regex) (s : string) (f : found) :
  rmatch re s = Some f -> s = matched f ++ rest f.
Proof.
  unfold rmatch. intros H.
  apply match_at_sound in H as (m & Hm & ->). now rewrite Hm.
Qed.

(** [search] finds a match of the pattern, after the text it skipped. *)
Lemma search_sound (re : regex) (s : string) :
  forall b f, search re s = Some (b, f) ->
    rmatch re (matched f ++ rest f) = Some f /\ s = b ++ matched f ++ rest f.
Proof.
  induction s as [|c s IH]; simpl; intros b f H.
  - destruct (rmatch re "") as [f'|] eqn:E; [ | discriminate].
    injection H as <- <-. rewrite <- (rmatch_sound _ _ _ E). auto.
  - destruct (rmatch re (String c s)) as [f'|] eqn:E.
    + injection H as <- <-. rewrite <- (rmatch_sound _ _ _ E). auto.
    + destruct (search re s) as [[b' f']|] eqn:S; [ | discriminate].
      injection H as <- <-. destruct (IH _ _ eq_refl) as [H1 H2].
      split; [exact H1 | simpl; now rewrite <- H2].
Qed.

Lemma search_here (re : regex) (s : string) (f : found) :
  rmatch re s = Some f -> search re s = Some ("", f).
Proof. intros H. destruct s; simpl; now rewrite H. Qed.

Lemma search_skip (re : regex) (c : ascii) (s : string) :
  rmatch re (String c s) = None ->
  search re (String c s)
  = match search re s with
    | Some (b, f) => Some (String c b, f)
    | None => None
    end.
Proof. intros H. simpl. now rewrite H. Qed.

(** [int] of a run of digits is not negative. *)
Lemma int_acc_nonneg (s : string) :
  forall acc, 0 <= acc -> all_chars is_digit s = true -> 0 <= int_acc acc s.
Proof.
  induction s as [|c s IH]; cbn [int_acc all_chars]; intros acc Hacc H;
    [exact Hacc | ].
  apply andb_prop in H as [Hc Hs]. apply IH; [ | exact Hs].
  unfold is_digit in Hc. apply andb_prop in Hc as [H1 _].
  apply Nat.leb_le in H1. lia.
Qed.

Lemma int_nonneg (s : string) : all_chars is_digit s = true -> 0 <= int s.
Proof. apply int_acc_nonneg. lia. Qed.

Lemma all_chars_append (p : ascii -> bool) (a b : string) :
  all_chars p (a ++ b) = (all_chars p a && all_chars p b)%bool.
Proof.
  induction a as [|c a IH]; simpl; [reflexivity | ].
  now rewrite IH, andb_assoc.
Qed.

Lemma all_chars_impl (p q : ascii -> bool) (s : string) :
  (forall c, p c = true -> q c = true) ->
  all_chars p s = true -> all_chars q s = true.
Proof.
  intros H. induction s as [|c s IH]; simpl; [reflexivity | ].
  intros Hs. apply andb_prop in Hs as [Hc Hs]. now rewrite (H c Hc), IH.
Qed.

(** ASCII bytes are their own text. *)
Lemma decode_ascii (b : string) :
  all_chars is_ascii b = true -> decode b = Decoded b.
Proof.
  induction b as [|c b IH]; cbn [decode all_chars]; [reflexivity | ].
  intros H. apply andb_prop in H as [Hc Hb]. now rewrite Hc, (IH Hb).
Qed.

Lemma digit_is_ascii (c : ascii) : is_digit c = true -> is_ascii c = true.
Proof.
  unfold is_digit, is_ascii. intros H. apply andb_prop in H as [_ H].
  apply Nat.leb_le in H. apply Nat.ltb_lt. lia.
Qed.

End TextFacts.

(** ** The progress parser *)

Section ProgressParser.

Arguments is_digit : simpl never.

(** What the pattern of line 175 matches is a marker around a run of
    digits. *)
Lemma progress_line_match (s : string) (f : found) :
  rmatch Pat.progress_line s = Some f ->
  exists ds, matched f = marker ds /\ digits ds.
Proof.
  unfold rmatch, Pat.progress_line. cbn [match_at]. intros H.
  destruct (strip _ s) as [s1|] eqn:E1; [ | discriminate].
  destruct s1 as [|c s1]; [discriminate | ].
  destruct (is_digit c) eqn:Hc; [ | discriminate].
  apply greedy_sound in H as (t & s2 & -> & Ht & H).
  cbn [match_at] in H.
  destruct (strip "%)" s2) as [s3|] eqn:E3; [ | discriminate].
  injection H as <-. cbn [matched].
  exists (String c t). split.
  - unfold marker. cbn [append]. reflexivity.
  - split; [simpl; now rewrite Hc, Ht | discriminate].
Qed.

Lemma progress_line_at_marker (ds post : string) :
  digits ds ->
  rmatch Pat.progress_line (marker ds ++ post)
  = Some (mkFound [] (marker ds) post).
Proof.
  intros [Hd Hne]. destruct ds as [|c t]; [congruence | ].
  simpl in Hd. apply andb_prop in Hd as [Hc Ht].
  unfold rmatch, Pat.progress_line, marker. cbn [match_at].
  rewrite (append_assoc _ _ post), strip_append. cbn [append]. rewrite Hc.
  rewrite (append_assoc t _ post).
  erewrite greedy_run; [reflexivity | exact Ht | exact eq_refl | ].
  rewrite strip_append. reflexivity.
Qed.

(** A marker is ASCII: line 178 decodes it to itself. *)
Lemma decode_marker (ds : string) :
  digits ds -> decode (marker ds) = Decoded (marker ds).
Proof.
  intros [Hd _]. apply decode_ascii. unfold marker.
  rewrite !all_chars_append, (all_chars_impl _ _ _ digit_is_ascii Hd).
  reflexivity.
Qed.

(** Line 179 on a marker: the value of its digits. *)
Lemma percentage_of_marker (ds : string) :
  digits ds -> progress_percentage (marker ds) = Some (int ds).
Proof.
  intros [Hd Hne]. destruct ds as [|c t]; [congruence | ].
  simpl in Hd. apply andb_prop in Hd as [Hc Ht].
  unfold progress_percentage, marker.
  assert (E : rmatch Pat.percent_group ("(" ++ String c t ++ "%)")
              = Some (mkFound [String c t] ("(" ++ String c t ++ "%)") "")).
  { unfold rmatch, Pat.percent_group. cbn [match_at strip append].
    rewrite Ascii.eqb_refl, Hc.
    erewrite greedy_run with (s := "%)"); [reflexivity | exact Ht | exact eq_refl | ].
    reflexivity. }
  cbn [append] in E |- *.
  repeat (rewrite search_skip by reflexivity).
  rewrite (search_here _ _ _ E). reflexivity.
Qed.

Lemma search_marker_total (line b : string) (f : found) :
  search Pat.progress_line line = Some (b, f) ->
  exists ds, digits ds /\ line = b ++ marker ds ++ rest f
             /\ progress_percentage (matched f) = Some (int ds).
Proof.
  intros H. apply search_sound in H as [H1 H2].
  apply progress_line_match in H1 as (ds & Hm & Hd).
  exists ds. rewrite <- Hm. repeat split; try apply Hd; [exact H2 | ].
  rewrite Hm. now apply percentage_of_marker.
Qed.

(** C3 as stated fails: a marker beyond 100 is parsed like any other. *)
Lemma parse_progress_out_of_range :
  parse_progress "Write LBA from file (250%)" = Some 250 /\ ~ (250 <= 100).
Proof. split; [reflexivity | lia]. Qed.

(** C3, amended: the progress parser returns a number exactly for a
    marker ["Write LBA from file (NN%)"] whose [NN] is a non-empty run of
    decimal digits, and the number is the value of [NN], whatever its
    size: a line that yields [n] contains such a marker with value [n],
    which is not negative, and a line that starts with such a marker
    yields its value.  A marker that is not numeric yields nothing. *)
Theorem parse_progress_marker :
  (forall line n,
      parse_progress line = Some n ->
      exists pre ds post,
        line = pre ++ marker ds ++ post /\ digits ds /\ n = int ds /\ 0 <= n)
  /\ (forall ds post,
         digits ds -> parse_progress (marker ds ++ post) = Some (int ds))
  /\ parse_progress (marker "abc") = None.
Proof.
  split; [ | split].
  - intros line n H. unfold parse_progress in H.
    destruct (search Pat.progress_line line) as [[b f]|] eqn:S; [ | discriminate].
    apply search_marker_total in S as (ds & Hd & Hl & Hp).
    rewrite Hp in H. injection H as <-.
    exists b, ds, (rest f). repeat split; try apply Hd; [exact Hl | ].
    apply int_nonneg, Hd.
  - intros ds post Hd. unfold parse_progress.
    rewrite (search_here _ _ _ (progress_line_at_marker ds post Hd)).
    cbn [matched]. now apply percentage_of_marker.
  - reflexivity.
Qed.

Lemma parse_progress_marker_witness :
  digits "250" /\ parse_progress (marker "250" ++ "") = Some (int "250").
Proof.
  assert (H : digits "250") by (split; [reflexivity | discriminate]).
  split; [exact H | ].
  exact (proj1 (proj2 parse_progress_marker) "250" "" H).
Defined.

End ProgressParser.

(** ** Matching a pattern piece by piece *)

Section MatchSteps.

Variables (re : regex) (caps : list string) (acc : string) (r : found).

Lemma match_lit (l s : string) :
  match_at re caps (acc ++ l) s = Some r ->
  match_at (Lit l :: re) caps acc (l ++ s) = Some r.
Proof. intros H. cbn [match_at]. now rewrite strip_append. Qed.

Lemma match_one (p : ascii -> bool) (c : ascii) (s : string) :
  p c = true ->
  match_at re caps (acc ++ String c "") s = Some r ->
  match_at (One p :: re) caps acc (String c s) = Some r.
Proof. intros Hc H. cbn [match_at]. now rewrite Hc. Qed.

Lemma match_star_empty (p : ascii -> bool) (s : string) :
  stops p s ->
  match_at re caps (acc ++ "") s = Some r ->
  match_at (Star p :: re) caps acc s = Some r.
Proof.
  intros Hs H. cbn [match_at].
  apply (greedy_run p "" s (fun t s' => match_at re caps (acc ++ t) s') r);
    [reflexivity | exact Hs | exact H].
Qed.

Lemma match_cap (p : ascii -> bool) (g s : string) :
  all_chars p g = true -> g <> "" -> stops p s ->
  match_at re (g :: caps) (acc ++ g) s = Some r ->
  match_at (Cap p :: re) caps acc (g ++ s) = Some r.
Proof.
  intros Hg Hne Hs H. destruct g as [|c t]; [congruence | ].
  simpl in Hg. apply andb_prop in Hg as [Hc Ht].
  cbn [match_at append]. rewrite Hc.
  apply (greedy_run p t s
           (fun t0 s'' => match_at re (String c t0 :: caps) (acc ++ String c t0) s'') r);
    [exact Ht | exact Hs | exact H].
Qed.

End MatchSteps.

(** ** [findall] does not depend on its bound *)

Section Findall.

Variable re : regex.

Lemma findall_from_bound (n : nat) :
  forall m s,
    (String.length s < n)%nat -> (String.length s < m)%nat ->
    findall_from n re s = findall_from m re s.
Proof.
  induction n as [|n IH]; intros m s Hn Hm; [lia | ].
  destruct m as [|m]; [lia | ]. cbn [findall_from].
  destruct (rmatch re s) as [f|] eqn:E.
  - f_equal. destruct (matched f) as [|c mt] eqn:Em.
    + destruct s as [|c s]; [reflexivity | ]. simpl in *. apply IH; lia.
    + apply rmatch_sound in E. rewrite Em in E.
      assert (String.length s = S (String.length mt + String.length (rest f))) as L
          by (rewrite E; simpl; now rewrite length_append).
      apply IH; lia.
  - destruct s as [|c s]; [reflexivity | ]. simpl in *. apply IH; lia.
Qed.

Lemma findall_match (s : string) (f : found) :
  rmatch re s = Some f -> matched f <> "" ->
  findall re s = groups f :: findall re (rest f).
Proof.
  intros E Hne. unfold findall at 1. cbn [findall_from]. rewrite E.
  f_equal. destruct (matched f) as [|c mt] eqn:Em; [congruence | ].
  apply rmatch_sound in E. rewrite Em in E.
  assert (String.length s = S (String.length mt + String.length (rest f))) as L
      by (rewrite E; simpl; now rewrite length_append).
  apply findall_from_bound; lia.
Qed.

Lemma findall_skip (c : ascii) (s : string) :
  rmatch re (String c s) = None -> findall re (String c s) = findall re s.
Proof.
  intros E. unfold findall at 1. cbn [findall_from]. rewrite E.
  apply findall_from_bound; simpl; lia.
Qed.

Lemma findall_empty : rmatch re "" = None -> findall re "" = [].
Proof. intros E. unfold findall. cbn [findall_from String.length]. now rewrite E. Qed.

End Findall.

(** ** The device parser *)

Section DeviceParser.

Lemma digit_not_space (c : ascii) : is_digit c = true -> is_space c = false.
Proof.
  unfold is_digit, is_space. generalize (code c) as n. intros n H.
  apply andb_prop in H as [H1 H2].
  apply Nat.leb_le in H1. apply Nat.leb_le in H2.
  destruct (Nat.leb_spec n 13), (Nat.leb_spec 28 n), (Nat.leb_spec n 32),
    (Nat.eqb_spec n 133), (Nat.eqb_spec n 160);
    rewrite ?andb_false_r, ?andb_true_r; simpl; try reflexivity; lia.
Qed.

Lemma stops_space_digits (d s : string) : digits d -> stops is_space (d ++ s).
Proof.
  intros [Hd Hne]. destruct d as [|c t]; [congruence | ].
  simpl in Hd. apply andb_prop in Hd as [Hc _]. simpl.
  now apply digit_not_space.
Qed.

Lemma line_end_stops_digit (tail : string) : line_end tail -> stops is_digit tail.
Proof. intros [-> | [s ->]]; simpl; auto. Qed.

(** A well-formed descriptor line is matched whole, and its four fields
    are the groups. *)
Lemma descriptor_match (d v p l tail : string) :
  digits d -> hexs v -> hexs p -> digits l -> stops is_digit tail ->
  rmatch Pat.descriptor (descriptor_line d v p l ++ tail)
  = Some (mkFound [d; v; p; l] (descriptor_line d v p l) tail).
Proof.
  intros Hd Hv Hp Hl Ht. unfold descriptor_line.
  repeat rewrite append_assoc.
  assert (E : exists f,
             rmatch Pat.descriptor
               ("DevNo" ++ "=" ++ d ++ "," ++ "Vid=0x" ++ v ++ ",Pid=0x" ++ p
                        ++ ",LocationID=" ++ l ++ tail) = Some f
             /\ groups f = [d; v; p; l]
             /\ matched f = (((((((((((("" ++ "DevNo") ++ "") ++ "=") ++ "") ++ d)
                                   ++ ",") ++ "Vid=0x") ++ v) ++ ",Pid=0x") ++ p)
                              ++ ",LocationID=") ++ l)
             /\ rest f = tail).
  { eexists. split.
    - unfold rmatch, Pat.descriptor.
      apply match_lit. apply match_star_empty; [reflexivity | ].
      apply match_lit. apply match_star_empty; [now apply stops_space_digits | ].
      apply match_cap; [apply Hd | apply Hd | reflexivity | ].
      apply (match_one _ _ _ _ is_nondigit ","); [reflexivity | ].
      apply match_lit.
      apply match_cap; [apply Hv | apply Hv | reflexivity | ].
      apply match_lit.
      apply match_cap; [apply Hp | apply Hp | reflexivity | ].
      apply match_lit.
      apply match_cap; [apply Hl | apply Hl | exact Ht | ].
      reflexivity.
    - cbn [groups matched rest rev app]. repeat split. }
  destruct E as (f & E & Hg & Hm & Hr). rewrite E. f_equal.
  destruct f as [g m r]. cbn [groups matched rest] in *. subst g r. f_equal.
  rewrite Hm. cbn [append]. rewrite ?append_nil_r, ?append_assoc.
  cbn [append]. now rewrite ?append_assoc.
Qed.

(** A match of the descriptor pattern starts with its keyword. *)
Lemma descriptor_starts (s : string) :
  startswith s "DevNo" = false -> rmatch Pat.descriptor s = None.
Proof.
  unfold startswith, rmatch, Pat.descriptor. cbn [match_at].
  now destruct (strip "DevNo" s).
Qed.

(** A text that does not begin with the keyword does not begin with it
    when a new line is put after it. *)
Lemma startswith_before_newline (l a s : string) :
  all_chars (fun c => negb (Ascii.eqb c "010")) l = true ->
  startswith a l = false ->
  startswith (a ++ newline ++ s) l = false.
Proof.
  unfold startswith. revert a.
  induction l as [|x l IH]; intros a Hl H; [discriminate | ].
  simpl in Hl. apply andb_prop in Hl as [Hx Hl].
  destruct a as [|y a]; cbn [append strip newline] in *.
  - apply negb_true_iff in Hx. now rewrite Hx.
  - destruct (Ascii.eqb x y); [now apply IH | reflexivity].
Qed.

Lemma after_spaces_split (a : string) (c : ascii) (r : string) :
  after_spaces a = String c r ->
  exists w, a = w ++ String c r /\ all_chars is_space w = true
            /\ is_space c = false.
Proof.
  induction a as [|x a IH]; cbn [after_spaces]; intros H; [discriminate | ].
  destruct (is_space x) eqn:Hx.
  - destruct (IH H) as (w & -> & Hw & Hc).
    exists (String x w). cbn [append all_chars]. now rewrite Hx, Hw.
  - injection H as -> ->. exists "". auto.
Qed.

(** However a run of white space is cut, what follows begins inside the
    run or right after it. *)
Lemma cut_spaces (w : string) (c : ascii) (r : string) :
  all_chars is_space w = true -> is_space c = false ->
  forall t s',
    t ++ s' = w ++ String c r -> all_chars is_space t = true ->
    exists w2 x r2, s' = String x r2
                    /\ (is_space x = true \/ x = c) /\ w = t ++ w2.
Proof.
  induction w as [|y w IH]; intros Hw Hc t s' E Ht.
  - destruct t as [|x t]; cbn [append] in E.
    + subst s'. exists "", c, r. auto.
    + injection E as -> _. cbn [all_chars] in Ht.
      apply andb_prop in Ht as [Hx _]. congruence.
  - cbn [all_chars] in Hw. apply andb_prop in Hw as [Hy Hw].
    destruct t as [|x t]; cbn [append] in E.
    + subst s'. exists (String y w), y, (w ++ String c r). auto.
    + injection E as -> E. cbn [all_chars] in Ht.
      apply andb_prop in Ht as [_ Ht].
      destruct (IH Hw Hc t s' E Ht) as (w2 & x & r2 & -> & Hx & ->).
      exists w2, x, r2. auto.
Qed.

(** A repetition fails when what follows fails after every run it could
    take. *)
Lemma greedy_none {R} (p : ascii -> bool) (k : string -> string -> option R)
    (s : string) :
  (forall t s', s = t ++ s' -> all_chars p t = true -> k t s' = None) ->
  greedy p k s = None.
Proof.
  intros H. destruct (greedy p k s) as [r|] eqn:G; [ | reflexivity].
  apply greedy_sound in G as (t & s' & E & Ht & Hk).
  rewrite (H t s' E Ht) in Hk. discriminate.
Qed.

(** No descriptor is matched where the text does not begin like one. *)
Lemma opens_false_no_match (a tail : string) :
  opens a = false -> line_end tail ->
  rmatch Pat.descriptor (a ++ tail) = None.
Proof.
  unfold opens. intros H Ht.
  destruct (strip "DevNo" a) as [a'|] eqn:E.
  - apply strip_sound in E; subst a.
    destruct (after_spaces a') as [|c r] eqn:A; [discriminate | ].
    apply after_spaces_split in A as (w & -> & Hw & Hc).
    unfold rmatch, Pat.descriptor. cbn [match_at].
    rewrite append_assoc, strip_append.
    apply greedy_none. intros t s' Es Hts.
    rewrite append_assoc in Es. cbn [append] in Es. symmetry in Es.
    destruct (cut_spaces w c (r ++ tail) Hw Hc t s' Es Hts)
      as (w2 & x & r2 & -> & Hx & _).
    cbn [match_at strip].
    destruct (Ascii.eqb "=" x) eqn:Ex; [ | reflexivity].
    apply Ascii.eqb_eq in Ex; subst x. destruct Hx as [Hx | <-].
    + discriminate Hx.
    + discriminate H.
  - apply descriptor_starts.
    assert (Hs : startswith a "DevNo" = false) by (unfold startswith; now rewrite E).
    destruct Ht as [-> | [s ->]]; [now rewrite append_nil_r | ].
    now apply startswith_before_newline.
Qed.

(** Noise is skipped, with the new line after it. *)
Lemma findall_noise (text s : string) :
  no_opening text = true ->
  findall Pat.descriptor (text ++ newline ++ s) = findall Pat.descriptor s.
Proof.
  induction text as [|c text IH]; intros H.
  - cbn [append newline]. apply findall_skip. now apply descriptor_starts.
  - cbn [no_opening] in H. apply andb_prop in H as [Ho Hn].
    apply negb_true_iff in Ho.
    cbn [append]. rewrite findall_skip; [now apply IH | ].
    apply (opens_false_no_match (String c text) (newline ++ s) Ho).
    right. now exists s.
Qed.

Lemma findall_noise_last (text : string) :
  no_opening text = true -> findall Pat.descriptor text = [].
Proof.
  induction text as [|c text IH]; intros H.
  - reflexivity.
  - cbn [no_opening] in H. apply andb_prop in H as [Ho Hn].
    apply negb_true_iff in Ho.
    rewrite findall_skip; [now apply IH | ].
    rewrite <- (append_nil_r (String c text)).
    apply opens_false_no_match; [exact Ho | now left].
Qed.

Lemma descriptor_line_nonempty (d v p l : string) : descriptor_line d v p l <> "".
Proof. discriminate. Qed.

Lemma parse_lines (xs : list line) :
  Forall line_ok xs -> parse_devices (unlines xs) = described xs.
Proof.
  unfold parse_devices.
  induction xs as [|x xs IH]; intros H; [reflexivity | ].
  inversion H as [|? ? Hx Hxs]; subst. specialize (IH Hxs).
  cbn [unlines described]. destruct x as [d v p l | text]; cbn [line_text].
  - destruct Hx as (Hd & Hv & Hp & Hl).
    destruct xs as [|x' xs'].
    + rewrite (findall_match _ _ _ (descriptor_match d v p l "" Hd Hv Hp Hl I));
        [ | apply descriptor_line_nonempty].
      reflexivity.
    + rewrite (findall_match _ _ _
                 (descriptor_match d v p l _ Hd Hv Hp Hl
                    (line_end_stops_digit _ (or_intror (ex_intro _ _ eq_refl)))));
        [ | apply descriptor_line_nonempty].
      cbn [groups rest devices_of device_of_groups]. f_equal.
      cbn [newline append]. rewrite findall_skip; [exact IH | ].
      now apply descriptor_starts.
  - cbn [line_ok] in Hx. destruct xs as [|x' xs'].
    + rewrite append_nil_r, (findall_noise_last _ Hx). reflexivity.
    + rewrite (findall_noise _ _ Hx). exact IH.
Qed.

End DeviceParser.

(** C5 as stated fails: two lines of noise, neither of which is a
    descriptor nor contains one, are read as one device, because the
    pattern is matched against the whole text and [\D] and [\s] accept a
    new line. *)
Lemma parse_devices_across_lines :
  parse_devices "DevNo=1" = [] /\
  parse_devices "Vid=0x1,Pid=0x2,LocationID=3" = [] /\
  described [Noise "DevNo=1"; Noise "Vid=0x1,Pid=0x2,LocationID=3"] = [] /\
  parse_devices (unlines [Noise "DevNo=1"; Noise "Vid=0x1,Pid=0x2,LocationID=3"])
  = [mkRadxaDevice 1 "1" "2" 3].
Proof. repeat split; vm_compute; reflexivity. Qed.

(** C5, amended: for a discovery text whose lines are well-formed
    descriptor lines ["DevNo=<int>,Vid=0x<hex>,Pid=0x<hex>,LocationID=<int>"]
    and noise lines in which the keyword ["DevNo"], where it occurs, is
    followed (after optional white space) by a character other than [=],
    the device parser returns exactly the devices of the descriptor
    lines, in their order, with [DevNo] and [LocationID] as integers and the [Vid] and
    [Pid] digits as they were written; with no descriptor line the result
    is empty. *)
Theorem parse_devices_lines (xs : list line) :
  Forall line_ok xs ->
  parse_devices (unlines xs) = described xs
  /\ ((forall x, In x xs -> exists text, x = Noise text) ->
      parse_devices (unlines xs) = []).
Proof.
  intros H. split; [now apply parse_lines | ].
  intros Hn. rewrite (parse_lines xs H).
  clear H. induction xs as [|x xs IH]; [reflexivity | ].
  destruct (Hn x (or_introl eq_refl)) as [text ->]. cbn [described].
  apply IH. intros y Hy. apply Hn. now right.
Qed.

Lemma parse_devices_lines_witness :
  Forall line_ok discovery_sample /\
  parse_devices (unlines discovery_sample)
  = [mkRadxaDevice 0 "2207" "350a" 103; mkRadxaDevice 1 "2207" "350A" 104].
Proof.
  assert (H : Forall line_ok discovery_sample).
  { repeat constructor; try reflexivity; discriminate. }
  split; [exact H | ].
  exact (proj1 (parse_devices_lines discovery_sample H)).
Defined.

(** ** Reasoning about the controller *)

Section Hoare.

Context {A B : Type}.

Lemma hoare_ret (P Q : state -> Prop) (a : A) :
  (forall s, P s -> Q s) -> hoare P (ret a) Q.
Proof. intros H s Hs. now apply H. Qed.

Lemma hoare_raise (P Q : state -> Prop) (e : exn) :
  (forall s, P s -> Q s) -> hoare P (@raise A e) Q.
Proof. intros H s Hs. now apply H. Qed.

Lemma hoare_bind (P R Q : state -> Prop) (m : M A) (k : A -> M B) :
  hoare P m R -> (forall s, R s -> Q s) -> (forall a, hoare R (k a) Q) ->
  hoare P (bind m k) Q.
Proof.
  intros Hm HRQ Hk s Hs. specialize (Hm s Hs). unfold bind.
  destruct (m s) as [a s'|e s'|s'|s']; cbn [final] in *; auto.
  now apply Hk.
Qed.

Lemma hoare_try (P R Q : state -> Prop) (m : M A) (h : exn -> M A) :
  hoare P m R -> (forall s, R s -> Q s) -> (forall e, hoare R (h e) Q) ->
  hoare P (try_except m h) Q.
Proof.
  intros Hm HRQ Hh s Hs. specialize (Hm s Hs). unfold try_except.
  destruct (m s) as [a s'|e s'|s'|s']; cbn [final] in *; auto.
  now apply Hh.
Qed.

Lemma preserves_bind (I : state -> Prop) (m : M A) (k : A -> M B) :
  preserves I m -> (forall a, preserves I (k a)) -> preserves I (bind m k).
Proof. intros Hm Hk. apply (hoare_bind I I I); auto. Qed.

Lemma preserves_try (I : state -> Prop) (m : M A) (h : exn -> M A) :
  preserves I m -> (forall e, preserves I (h e)) ->
  preserves I (try_except m h).
Proof. intros Hm Hh. apply (hoare_try I I I); auto. Qed.

End Hoare.

Lemma bind_returned {A B} (m : M A) (k : A -> M B) (s s' : state) (a : A) :
  m s = Returned a s' -> bind m k s = k a s'.
Proof. unfold bind. now intros ->. Qed.

Lemma bind_hung {A B} (m : M A) (k : A -> M B) (s s' : state) :
  m s = Hung s' -> bind m k s = Hung s'.
Proof. unfold bind. now intros ->. Qed.

(** Unfold the controller down to its waits and its tests on the text,
    which stay as they are. *)
Ltac step_controller :=
  cbv beta iota zeta
    delta [run session initial_prompt expect_initial_prompt rescan_devices
           sendline expect child_before child_match_group decode_utf8 the_child
           bind get ret set_child set_num_devices set_devices logging emit raise
           outside try_except built spawned self child buffer pending before
           last_match command trace ul_file im_file num_devices devices
           index_of special_eqb].

(** Decoding does not touch the state. *)
Lemma decode_utf8_final (b : string) (s : state) : final (decode_utf8 b s) = s.
Proof. unfold decode_utf8. now destruct (decode b). Qed.

Lemma preserves_decode_utf8 (I : state -> Prop) (b : string) :
  preserves I (decode_utf8 b).
Proof. intros s Hs. now rewrite decode_utf8_final. Qed.

Lemma preserves_for_each {A} (I : state -> Prop) (l : list A) (body : A -> M unit) :
  (forall x, In x l -> preserves I (body x)) -> preserves I (for_each l body).
Proof.
  induction l as [|x l IH]; intros H; cbn [for_each].
  - now apply hoare_ret.
  - apply preserves_bind; [apply H; now left | intros _].
    apply IH. intros y Hy. apply H. now right.
Qed.

Lemma startswith_ul (t : UpgradeTool) :
  startswith (ul_command t) "ul" = true /\ startswith (ul_command t) "wl" = false.
Proof. split; reflexivity. Qed.

Lemma startswith_wl (t : UpgradeTool) :
  startswith (wl_command t) "ul" = false /\ startswith (wl_command t) "wl" = true.
Proof. split; reflexivity. Qed.

(** [send_upgrade_commands] is the two commands in a row: what
    [upgrade_loader] found does not decide whether the image is written. *)
Lemma send_upgrade_commands_unfold (fuel : nat) (location : Z) (s : state) :
  send_upgrade_commands fuel location s
  = ((sendline (ul_command (self s)) ;; upgrade_loader location ;; ret tt) ;;
     (sendline (wl_command (self s)) ;; ret tt ;; write_lba fuel location) ;;
     ret tt) s.
Proof. reflexivity. Qed.

(** Invariants that look at the two paths, the devices and the trace
    only, and that accept the events [ok]. *)
Section Invariant.

Variable I : state -> Prop.
Variable ok : event -> Prop.

Hypothesis I_frame :
  forall t t' tr,
    ul_file t' = ul_file t -> im_file t' = im_file t ->
    devices t' = devices t ->
    I (mkState t tr) -> I (mkState t' tr).

Hypothesis I_event :
  forall t tr e, ok e -> I (mkState t tr) -> I (mkState t (e :: tr)).

Ltac frame :=
  repeat match goal with
    | |- forall _, _ => intro
    | s : state |- _ => destruct s as [? ?]
    | |- context [match ?x with _ => _ end] =>
        lazymatch x with
        | context [match _ with _ => _ end] => fail
        | _ => destruct x
        end
    end;
  cbn in *; auto; try (eapply I_frame; [ | | | eassumption]; reflexivity).

Lemma preserves_emit (e : event) : ok e -> preserves I (emit e).
Proof. intros He [t tr] Hs. cbn. now apply I_event. Qed.

Lemma preserves_get {X} (f : UpgradeTool -> X) : preserves I (get f).
Proof. intros s Hs. exact Hs. Qed.

Lemma preserves_the_child : preserves I the_child.
Proof. unfold the_child, get, bind, ret, raise. intros s Hs. frame. Qed.

Lemma preserves_set_child (c : option spawn) : preserves I (set_child c).
Proof. unfold set_child. intros s Hs. frame. Qed.

Lemma preserves_set_num_devices (n : Z) : preserves I (set_num_devices n).
Proof. unfold set_num_devices. intros s Hs. frame. Qed.

Lemma preserves_sendline (text : string) :
  ok (Sent (text ++ newline)) -> preserves I (sendline text).
Proof.
  intros H. unfold sendline.
  apply preserves_bind; [apply preserves_the_child | intros _].
  now apply preserves_emit.
Qed.

Lemma preserves_expect (re : regex) (more : list special) (timeout : option nat) :
  preserves I (expect re more timeout).
Proof.
  unfold expect.
  apply preserves_bind; [apply preserves_the_child | intros c].
  destruct (expect_loop re timeout (buffer c) (pending c));
    (apply preserves_bind; [apply preserves_set_child | intros _]).
  - now apply hoare_ret.
  - destruct (index_of P_EOF more 1); [now apply hoare_ret | now apply hoare_raise].
  - destruct (index_of P_TIMEOUT more 1); [now apply hoare_ret | now apply hoare_raise].
Qed.

Lemma preserves_child_before : preserves I child_before.
Proof.
  unfold child_before.
  apply preserves_bind; [apply preserves_the_child | intros c].
  apply preserves_decode_utf8.
Qed.

Lemma preserves_child_match_group (i : nat) : preserves I (child_match_group i).
Proof.
  unfold child_match_group.
  apply preserves_bind; [apply preserves_the_child | intros c].
  destruct (last_match c) as [f|]; [ | now apply hoare_raise].
  destruct i as [|j]; [now apply hoare_ret | ].
  destruct (nth_error (groups f) j); [now apply hoare_ret | now apply hoare_raise].
Qed.

Lemma preserves_expect_initial_prompt : preserves I expect_initial_prompt.
Proof.
  unfold expect_initial_prompt.
  apply preserves_bind; [apply preserves_expect | intros _].
  now apply hoare_ret.
Qed.

Hypothesis ok_logged : forall lv msg, ok (Logged lv msg).

Lemma preserves_logging (lv : level) (msg : string) : preserves I (logging lv msg).
Proof. apply preserves_emit, ok_logged. Qed.

Lemma preserves_upgrade_loader (location : Z) : preserves I (upgrade_loader location).
Proof.
  unfold upgrade_loader. apply preserves_try.
  - apply preserves_bind; [apply preserves_expect | intros _].
    apply preserves_bind; [apply preserves_child_before | intros output].
    destruct (str_in "Upgrade loader ok" output); [apply preserves_logging | ].
    destruct (str_in "Download Boot Fail" output); [ | apply preserves_logging].
    apply preserves_bind; [apply preserves_logging | intros _].
    apply preserves_logging.
  - intros []; [now apply hoare_raise | apply preserves_logging | now apply hoare_raise ..].
Qed.

Hypothesis ok_printed : forall text, ok (Printed text).
Hypothesis ok_progress : forall pct, ok (Progress pct).
Hypothesis ok_cd : ok (Sent ("cd" ++ newline)).

Lemma preserves_writing_lba_loop (fuel : nat) :
  forall last_percentage, preserves I (writing_lba_loop fuel last_percentage).
Proof.
  induction fuel as [|fuel IH]; intros last; cbn [writing_lba_loop].
  - intros s Hs. exact Hs.
  - apply preserves_bind; [apply preserves_expect | intros index].
    destruct (index =? 0); [ | apply IH].
    apply preserves_bind; [apply preserves_child_match_group | intros group_0].
    apply preserves_bind; [apply preserves_decode_utf8 | intros msg].
    destruct (progress_percentage msg) as [pct|]; [ | now apply hoare_raise].
    apply preserves_bind; [ | intros last'].
    + destruct (negb (pct =? last)); [ | now apply hoare_ret].
      apply preserves_bind; [now apply preserves_emit | intros _].
      now apply hoare_ret.
    + destruct (pct =? 100); [ | apply IH].
      apply preserves_bind; [now apply preserves_emit | intros _].
      apply preserves_logging.
Qed.

Lemma preserves_writing_lba (fuel : nat) : preserves I (writing_lba fuel).
Proof.
  unfold writing_lba.
  apply preserves_bind; [apply preserves_writing_lba_loop | intros _].
  apply preserves_bind; [now apply preserves_sendline | intros _].
  apply preserves_expect_initial_prompt.
Qed.

Lemma preserves_write_lba (fuel : nat) (location : Z) :
  preserves I (write_lba fuel location).
Proof.
  unfold write_lba. apply preserves_try.
  - apply preserves_bind; [apply preserves_expect | intros _].
    apply preserves_bind; [apply preserves_child_before | intros output].
    destruct (str_in "Write LBA failed!" output);
      (apply preserves_bind; [apply preserves_logging | intros _]).
    + apply preserves_logging.
    + apply preserves_writing_lba.
  - intros []; [now apply hoare_raise | apply preserves_logging | now apply hoare_raise ..].
Qed.

Lemma preserves_two_commands (fuel : nat) (location : Z) (ul wl : string) :
  ok (Sent (ul ++ newline)) -> ok (Sent (wl ++ newline)) ->
  preserves I
    ((sendline ul ;; upgrade_loader location ;; ret tt) ;;
     (sendline wl ;; ret tt ;; write_lba fuel location) ;;
     ret tt).
Proof.
  intros Hul Hwl.
  apply preserves_bind; [ | intros _; apply preserves_bind; [ | intros _]].
  - apply preserves_bind; [now apply preserves_sendline | intros _].
    apply preserves_bind; [apply preserves_upgrade_loader | intros _].
    now apply hoare_ret.
  - apply preserves_bind; [now apply preserves_sendline | intros _].
    apply preserves_bind; [now apply hoare_ret | intros _].
    apply preserves_write_lba.
  - now apply hoare_ret.
Qed.

Hypothesis I_ul : forall s, I s -> ok (Sent (ul_command (self s) ++ newline)).
Hypothesis I_wl : forall s, I s -> ok (Sent (wl_command (self s) ++ newline)).

Lemma preserves_send_upgrade_commands (fuel : nat) (location : Z) :
  preserves I (send_upgrade_commands fuel location).
Proof.
  intros s Hs. rewrite send_upgrade_commands_unfold.
  apply preserves_two_commands; auto.
Qed.

Lemma preserves_run_upgrade (fuel : nat) (device : RadxaDevice) :
  ok (Sent (str (devno device) ++ newline)) ->
  preserves I (run_upgrade fuel device).
Proof.
  intros Hd. unfold run_upgrade.
  apply preserves_bind; [now apply preserves_sendline | intros _].
  apply preserves_bind; [apply preserves_expect | intros _].
  apply preserves_send_upgrade_commands.
Qed.

Hypothesis I_set_devices :
  forall t tr ds,
    I (mkState t tr) ->
    I (mkState (mkUpgradeTool (ul_file t) (im_file t) (command t) (child t)
                  (num_devices t) ds) tr).
Hypothesis ok_r : ok (Sent ("r" ++ newline)).

Lemma preserves_set_devices (ds : list RadxaDevice) : preserves I (set_devices ds).
Proof. unfold set_devices. intros [t tr] Hs. cbn. now apply I_set_devices. Qed.

Lemma preserves_initial_prompt : preserves I initial_prompt.
Proof.
  unfold initial_prompt, rescan_devices.
  apply preserves_bind; [apply preserves_expect_initial_prompt | intros _].
  apply preserves_bind; [apply preserves_child_before | intros output].
  destruct (str_in "No found rockusb" output); [apply preserves_logging | ].
  destruct (str_in "Select input DevNo" output); [ | now apply hoare_ret].
  apply preserves_bind; [now apply preserves_sendline | intros _].
  apply preserves_bind; [apply preserves_expect | intros _].
  apply preserves_bind; [apply preserves_child_match_group | intros count].
  apply preserves_bind; [apply preserves_set_num_devices | intros _].
  apply preserves_set_devices.
Qed.

End Invariant.

(** ** Progress lines within one device *)

Section ProgressEvents.

Lemma same_percentages_frame (ps : list Z) :
  forall t t' tr,
    ul_file t' = ul_file t -> im_file t' = im_file t ->
    devices t' = devices t ->
    same_percentages ps (mkState t tr) -> same_percentages ps (mkState t' tr).
Proof. intros t t' tr _ _ _ H. exact H. Qed.

Lemma same_percentages_event (ps : list Z) :
  forall t tr e,
    not_progress e ->
    same_percentages ps (mkState t tr) -> same_percentages ps (mkState t (e :: tr)).
Proof. intros t tr [] He H; try exact H. destruct He. Qed.

Lemma final_eq {X} (m : M X) (s : state) (r : result X) :
  m s = r -> final (m s) = final r.
Proof. now intros ->. Qed.

Lemma writing_lba_loop_no_repeat (fuel : nat) :
  forall last_percentage s,
    loop_inv last_percentage s ->
    no_repeat (percentages (trace (final (writing_lba_loop fuel last_percentage s)))).
Proof.
  induction fuel as [|fuel IH]; intros last s [Hn Hl]; [exact Hn | ].
  cbn [writing_lba_loop]. unfold bind at 1.
  pose proof (preserves_expect _ (same_percentages_frame _)
                Pat.progress_line [P_EOF] None s eq_refl) as He.
  destruct (expect Pat.progress_line [P_EOF] None s) as [index s1|e s1|s1|s1];
    cbn [final] in *; unfold same_percentages in He;
    [ | now rewrite He ..].
  destruct (index =? 0); [ | apply IH; unfold loop_inv; rewrite He; now split].
  unfold bind at 1.
  pose proof (preserves_child_match_group (same_percentages _)
                0%nat s1 eq_refl) as Hg.
  destruct (child_match_group 0 s1) as [group_0 s2|e s2|s2|s2];
    cbn [final] in *; unfold same_percentages in Hg; rewrite He in Hg;
    [ | now rewrite Hg ..].
  unfold bind at 1, decode_utf8.
  destruct (decode group_0) as [msg| |];
    [unfold ret at 1; cbv beta iota | cbn; now rewrite Hg ..].
  destruct (progress_percentage msg) as [pct|]; [ | cbn; now rewrite Hg].
  destruct (pct =? last) eqn:Ep; cbn [negb]; cbv beta delta [bind ret emit] iota.
  - destruct (pct =? 100).
    + cbn. now rewrite Hg.
    + apply IH. unfold loop_inv. rewrite Hg. now split.
  - apply Z.eqb_neq in Ep.
    assert (Hnew : loop_inv pct (mkState (self s2) (Progress pct :: trace s2))).
    { unfold loop_inv. cbn [trace percentages]. rewrite Hg.
      split; [ | reflexivity]. cbn [no_repeat]. split; [ | exact Hn].
      destruct (percentages (trace s)); [exact I | congruence]. }
    destruct (pct =? 100).
    + cbn. apply Hnew.
    + apply IH. exact Hnew.
Qed.

Lemma writing_lba_no_repeat (fuel : nat) :
  hoare (same_percentages []) (writing_lba fuel)
    (fun s => no_repeat (percentages (trace s))).
Proof.
  unfold writing_lba. intros s Hs. unfold bind at 1.
  pose proof (writing_lba_loop_no_repeat fuel (-1) s) as Hl.
  unfold same_percentages in Hs.
  assert (Hi : loop_inv (-1) s) by (unfold loop_inv; rewrite Hs; now split).
  specialize (Hl Hi).
  destruct (writing_lba_loop fuel (-1) s) as [[] s1|e s1|s1|s1]; cbn [final] in *;
    try exact Hl.
  remember (percentages (trace s1)) as ps eqn:Eps.
  assert (P : preserves (same_percentages ps)
                (sendline "cd" ;; expect_initial_prompt)).
  { apply preserves_bind; [ | intros _].
    - apply (preserves_sendline _ not_progress);
        [apply same_percentages_event | exact I].
    - apply preserves_expect_initial_prompt, same_percentages_frame. }
  specialize (P s1 (eq_sym Eps)). unfold same_percentages in P.
  rewrite P. exact Hl.
Qed.

Lemma write_lba_no_repeat (fuel : nat) (location : Z) :
  hoare (same_percentages []) (write_lba fuel location)
    (fun s => no_repeat (percentages (trace s))).
Proof.
  assert (F := same_percentages_frame []).
  assert (E := same_percentages_event []).
  assert (L : forall lv msg, preserves (same_percentages []) (logging lv msg)).
  { intros. apply (preserves_emit _ not_progress); [exact E | exact I]. }
  assert (W : forall s, same_percentages [] s -> no_repeat (percentages (trace s))).
  { intros s Hs. rewrite Hs. exact I. }
  unfold write_lba. apply (hoare_try _ (fun s => no_repeat (percentages (trace s))));
    [ | auto | ].
  - apply (hoare_bind _ (same_percentages [])); [now apply preserves_expect | exact W | ].
    intros _.
    apply (hoare_bind _ (same_percentages [])); [now apply preserves_child_before | exact W | ].
    intros output. destruct (str_in "Write LBA failed!" output).
    + apply (hoare_bind _ (same_percentages [])); [apply L | exact W | intros _].
      intros s Hs. apply W. now apply L.
    + apply (hoare_bind _ (same_percentages [])); [apply L | exact W | intros _].
      apply writing_lba_no_repeat.
  - intros e s Hs. destruct e; cbn; exact Hs.
Qed.

Lemma two_commands_no_repeat (fuel : nat) (location : Z) (ul wl : string) :
  hoare (same_percentages [])
    ((sendline ul ;; upgrade_loader location ;; ret tt) ;;
     (sendline wl ;; ret tt ;; write_lba fuel location) ;;
     ret tt)
    (fun s => no_repeat (percentages (trace s))).
Proof.
  assert (F := same_percentages_frame []).
  assert (E := same_percentages_event []).
  assert (W : forall s, same_percentages [] s -> no_repeat (percentages (trace s))).
  { intros s Hs. rewrite Hs. exact I. }
  assert (Snd : forall text, preserves (same_percentages []) (sendline text)).
  { intros. apply (preserves_sendline _ not_progress); [exact E | exact I]. }
  apply (hoare_bind _ (same_percentages [])); [ | exact W | intros _].
  { apply preserves_bind; [apply Snd | intros _].
    apply preserves_bind; [ | intros _; now apply hoare_ret].
    apply (preserves_upgrade_loader _ not_progress); auto. intros; exact I. }
  apply (hoare_bind _ (fun s => no_repeat (percentages (trace s))));
    [ | auto | intros _; now apply hoare_ret].
  apply (hoare_bind _ (same_percentages [])); [apply Snd | exact W | intros _].
  apply (hoare_bind _ (same_percentages [])); [now apply hoare_ret | exact W | intros _].
  apply write_lba_no_repeat.
Qed.

(** C4: whatever the process writes while one device is flashed, the
    percentages of the progress lines the controller puts out for that
    device never repeat from one line to the next. *)
Theorem progress_never_repeats (fuel : nat) (device : RadxaDevice)
    (t : UpgradeTool) :
  no_repeat
    (percentages (trace (final (run_upgrade fuel device (mkState t []))))).
Proof.
  assert (W : forall s, same_percentages [] s -> no_repeat (percentages (trace s))).
  { intros s Hs. rewrite Hs. exact I. }
  assert (H : hoare (same_percentages []) (run_upgrade fuel device)
                (fun s => no_repeat (percentages (trace s)))).
  { unfold run_upgrade.
    apply (hoare_bind _ (same_percentages [])); [ | exact W | intros _].
    { apply (preserves_sendline _ not_progress);
        [apply same_percentages_event | exact I]. }
    apply (hoare_bind _ (same_percentages [])); [ | exact W | intros _].
    { apply preserves_expect, same_percentages_frame. }
    intros s Hs. rewrite send_upgrade_commands_unfold.
    now apply two_commands_no_repeat. }
  apply H. reflexivity.
Qed.

End ProgressEvents.

(** ** The commands sent to the process *)

Section Vocabulary.

Variables ul im : string.







End Vocabulary.



(** ** Sessions *)

Example session_success :
  main all_exist sample_args 4 process_success
  = Exited 0
      [Spawned "sudo ./upgrade_tool"; Sent ("r" ++ newline); Sent ("1" ++ newline);
       Sent ("ul loader.bin -noreset" ++ newline);
       Logged INFO "Upgrade loader for device in location 103 was successful.";
       Sent ("wl 0 image.img" ++ newline);
       Logged INFO "Writing LBA for device in location 103.";
       Progress 0; Progress 40; Progress 100; Printed newline;
       Logged INFO "Write process completed."; Sent ("cd" ++ newline)].
Proof. vm_compute. reflexivity. Qed.

(** C1, at a device whose loader upload fails: the failure is logged and
    the image-write command is sent to the same device all the same.
    [send_upgrade_commands] runs its two commands in a row and
    [upgrade_loader] has no result to act on. *)
Theorem loader_failure_still_writes (fuel : nat) :
  main all_exist sample_args fuel process_loader_fails
  = Exited 0
      [Spawned "sudo ./upgrade_tool"; Sent ("r" ++ newline); Sent ("1" ++ newline);
       Sent ("ul loader.bin -noreset" ++ newline);
       Logged ERROR "Upgrade loader command for device in location 103 failed.";
       Logged INFO maskrom_hint;
       Sent ("wl 0 image.img" ++ newline);
       Logged ERROR "Write LBA for device in location 103 failed";
       Logged INFO maskrom_hint].
Proof. vm_compute. reflexivity. Qed.

(** The same after a timeout of the loader upload. *)
Example loader_timeout_still_writes (fuel : nat) :
  main all_exist sample_args fuel process_loader_times_out
  = Exited 0
      [Spawned "sudo ./upgrade_tool"; Sent ("r" ++ newline); Sent ("1" ++ newline);
       Sent ("ul loader.bin -noreset" ++ newline);
       Logged ERROR "Unknow error for device in location 103.";
       Sent ("wl 0 image.img" ++ newline);
       Logged ERROR "Write LBA for device in location 103 failed";
       Logged INFO maskrom_hint].
Proof. vm_compute. reflexivity. Qed.

(** ** The end of the stream while an image is written *)

(** At the end of the stream the loop of [writing_lba] takes index 1
    from [expect] again and again: no bound is enough for it to end, and
    it does nothing on the way. *)
Lemma writing_lba_loop_at_eof (fuel : nat) :
  forall last_percentage s,
    at_eof s ->
    exists s', writing_lba_loop fuel last_percentage s = Hung s'
               /\ trace s' = trace s.
Proof.
  induction fuel as [|fuel IH]; intros last s H.
  - exists s. split; reflexivity.
  - cbn [writing_lba_loop].
    unfold at_eof in H. destruct s as [t tr].
    destruct t as [ul im cmd [c|] n ds]; cbn in H; [ | destruct H].
    destruct c as [buf pend bef lm]. cbn in H. destruct H as [-> ->].
    cbv beta delta [bind expect the_child get ret set_child] iota.
    cbn -[writing_lba_loop].
    apply IH. cbn. auto.
Qed.

(** The first of the two devices of [process_dies_mid_write]: the loop
    shows 40% and then waits at the end of the stream. *)
Lemma first_device_hangs (fuel : nat) :
  exists s',
    run_upgrade (S fuel) (mkRadxaDevice 1 "2207" "350a" 103) after_listing_two
    = Hung s'
    /\ trace s'
       = [Progress 40; Logged INFO "Writing LBA for device in location 103.";
          Sent ("wl 0 image.img" ++ newline);
          Logged INFO "Upgrade loader for device in location 103 was successful.";
          Sent ("ul loader.bin -noreset" ++ newline); Sent ("1" ++ newline);
          Sent ("r" ++ newline); Spawned "sudo ./upgrade_tool"].
Proof.
  lazy -[writing_lba_loop]. cbn [writing_lba_loop].
  lazy -[writing_lba_loop].
  match goal with
  | |- context [writing_lba_loop fuel ?l ?st] =>
      destruct (writing_lba_loop_at_eof fuel l st) as (s' & -> & Ht);
        [split; reflexivity | ]
  end.
  exists s'. split; [reflexivity | exact Ht].
Qed.

(** C2, at a process that dies after the 40% line of the first of two
    devices: whatever the bound on the loop, the program never ends and
    never reports the error of the session.  (No further device is
    selected either.) *)
Theorem eof_mid_write_never_ends (fuel : nat) :
  let e := main all_exist sample_args fuel process_dies_mid_write in
  exit_status e = None
  /\ ~ In session_error (history e)
  /\ sent (history e)
     = firstn (length (sent (history e)))
         ["r" ++ newline; "1" ++ newline; "ul loader.bin -noreset" ++ newline;
          "wl 0 image.img" ++ newline].
Proof.
  destruct fuel as [|fuel].
  - vm_compute. split; [reflexivity | split; [ | reflexivity]].
    intros H. repeat (destruct H as [H | H]; [discriminate H | ]). exact H.
  - destruct (first_device_hangs fuel) as (s' & Hr & Ht).
    assert (Hm : main all_exist sample_args (S fuel) process_dies_mid_write
                 = Never (rev (trace s'))).
    { unfold main. cbn [__init__ all_exist sample_args arg_ul arg_im or_default].
      unfold run, bind at 1, get at 1. unfold bind at 1, emit at 1.
      unfold bind at 1, set_child at 1.
      cbn [self trace ul_file im_file command num_devices devices].
      unfold try_except, session.
      rewrite (bind_returned _ _ _ after_listing_two tt) by (vm_compute; reflexivity).
      unfold bind at 1, get at 1.
      change (devices (self after_listing_two))
        with [mkRadxaDevice 1 "2207" "350a" 103; mkRadxaDevice 2 "2207" "350a" 104].
      cbn [for_each]. rewrite (bind_hung _ _ _ _ Hr). reflexivity. }
    cbv zeta. rewrite Hm. cbn [exit_status history]. rewrite Ht.
    split; [reflexivity | split; [ | reflexivity]].
    intros H. cbn in H. repeat (destruct H as [H | H]; [discriminate H | ]). exact H.
Qed.

(** ** A process that closes its output at once *)

(** C6: when the stream ends at the first wait, before any selection
    prompt was written, and what the process wrote until then decodes
    to a text (nothing at all, when it closes its output at once), the
    controller reports that no devices were found and the session ends
    without a single command sent to the process. *)
Theorem no_devices_on_early_eof (fuel : nat) (ul im : string)
    (process : list chunk) (output text : string) :
  expect_loop Pat.rescan_prompt None "" process = AtEof output ->
  decode output = Decoded text ->
  str_in "Select input DevNo" text = false ->
  exists s,
    run fuel process (mkState (built ul im) []) = Returned tt s
    /\ sent (trace s) = []
    /\ In (Logged INFO "No Radxa devices found.") (trace s)
    /\ ~ In session_error (trace s).
Proof.
  intros He Hd Hs.
  step_controller. rewrite He. step_controller. rewrite Hd. step_controller.
  destruct (str_in "No found rockusb" text);
    [ | rewrite Hs]; step_controller; eexists; (split; [reflexivity | ]);
    (split; [reflexivity | ]); (split; [cbn; tauto | ]);
    intros H; repeat (destruct H as [H | H]; [discriminate H | ]); exact H.
Qed.

Lemma no_devices_on_early_eof_witness :
  exists s,
    run 0 [] (mkState (built "loader.bin" "image.img") []) = Returned tt s
    /\ sent (trace s) = []
    /\ In (Logged INFO "No Radxa devices found.") (trace s)
    /\ ~ In session_error (trace s).
Proof.
  exact (no_devices_on_early_eof 0 "loader.bin" "image.img" [] "" ""
           eq_refl eq_refl eq_refl).
Defined.

(** Output that does not decode ends the program with a traceback:
    [run] catches the end of the stream only. *)
Example undecodable_output_is_fatal :
  main all_exist sample_args 0 [Data (String "255" "")]
  = Exited 1 [Spawned "sudo ./upgrade_tool"].
Proof. vm_compute. reflexivity. Qed.

(** ** Construction *)

(** C10: with a loader path or an image path that does not exist the
    program prints its message and ends with status 1, and no process
    was spawned; with both paths in place construction keeps them as
    given and spawns nothing. *)
Theorem init_checks_paths (exists_ : string -> bool) (a : args) (fuel : nat)
    (process : list chunk) :
  let ul := or_default (arg_ul a) default_ul_file in
  let im := or_default (arg_im a) default_im_file in
  (exists_ ul = false ->
   main exists_ a fuel process
   = Exited 1 [Printed ("Upgrade loader file path does not exist." ++ newline)])
  /\ (exists_ ul = true -> exists_ im = false ->
      main exists_ a fuel process
      = Exited 1 [Printed ("Image file path does not exist." ++ newline)])
  /\ (exists_ ul = true -> exists_ im = true ->
      forall cmd,
        __init__ exists_ ul im cmd = Built (mkUpgradeTool ul im cmd None 0 [])).
Proof.
  cbv zeta. unfold main, __init__. repeat split.
  - intros H. now rewrite H.
  - intros H1 H2. now rewrite H1, H2.
  - intros H1 H2 cmd. now rewrite H1, H2.
Qed.

Lemma init_checks_paths_witness :
  only_image "loader.bin" = false
  /\ main only_image sample_args 5 process_success
     = Exited 1 [Printed ("Upgrade loader file path does not exist." ++ newline)].
Proof.
  split; [reflexivity | ].
  exact (proj1 (init_checks_paths only_image sample_args 5 process_success)
           eq_refl).
Defined.

(** ** The reported count and the parsed devices *)

(** C9 as stated fails: the listing shows one device and the count after
    the rescan says two; the count is stored and never compared, and
    nothing is logged about it. *)
Lemma count_mismatch_not_logged :
  exists s,
    initial_prompt (spawned "loader.bin" "image.img" process_count_mismatch)
    = Returned tt s
    /\ num_devices (self s) = 2
    /\ length (devices (self s)) = 1%nat
    /\ nothing_logged (trace s)
    /\ main all_exist sample_args 2 process_count_mismatch
       = Exited 0
           [Spawned "sudo ./upgrade_tool"; Sent ("r" ++ newline);
            Sent ("1" ++ newline); Sent ("ul loader.bin -noreset" ++ newline);
            Logged INFO "Upgrade loader for device in location 103 was successful.";
            Sent ("wl 0 image.img" ++ newline);
            Logged INFO "Writing LBA for device in location 103.";
            Progress 0; Progress 100; Printed newline;
            Logged INFO "Write process completed."; Sent ("cd" ++ newline)].
Proof.
  eexists. split; [vm_compute; reflexivity | ].
  split; [reflexivity | ]. split; [reflexivity | ].
  split; [ | vm_compute; reflexivity].
  intros lv msg H. cbn in H.
  repeat (destruct H as [H | H]; [discriminate H | ]). exact H.
Qed.

(** What [initial_prompt] leaves behind when it returns: no devices and
    no count, or the devices parsed from the text before the first
    prompt, with the rescan command as the only new event. *)
Lemma initial_prompt_spawned (ul im : string) (process : list chunk) (s : state) :
  initial_prompt (spawned ul im process) = Returned tt s ->
  (devices (self s) = [] /\ num_devices (self s) = 0)
  \/ (exists output text f pend,
         expect_loop Pat.rescan_prompt None "" process = Hit output f pend
         /\ decode output = Decoded text
         /\ devices (self s) = parse_devices text
         /\ trace s = [Sent ("r" ++ newline); Spawned default_command]).
Proof.
  step_controller.
  destruct (expect_loop Pat.rescan_prompt None "" process)
    as [b f pend|b|b pend] eqn:E1; step_controller; [ | | discriminate].
  - destruct (decode b) as [text| |] eqn:Ed; step_controller; try discriminate.
    destruct (str_in "No found rockusb" text); step_controller;
      [intros H; inversion H; left; split; reflexivity | ].
    destruct (str_in "Select input DevNo" text); step_controller;
      [ | intros H; inversion H; left; split; reflexivity].
    match goal with
    | |- context [expect_loop Pat.found_prompt ?t ?buf ?pd] =>
        destruct (expect_loop Pat.found_prompt t buf pd) as [b2 f2 pend2|b2|b2 pend2]
    end; step_controller; try discriminate.
    match goal with
    | |- context [nth_error ?l ?n] => destruct (nth_error l n)
    end; step_controller; try discriminate.
    intros H; inversion H. right. exists b, text, f, pend.
    repeat split; try assumption; reflexivity.
  - destruct (decode b) as [text| |] eqn:Ed; step_controller; try discriminate.
    destruct (str_in "No found rockusb" text); step_controller;
      [intros H; inversion H; left; split; reflexivity | ].
    destruct (str_in "Select input DevNo" text); step_controller;
      [ | intros H; inversion H; left; split; reflexivity].
    discriminate.
Qed.

(** C9, amended: when the count reported after the rescan differs from
    the number of devices parsed, the controller logs nothing about it
    (the count is stored and never compared) and goes on without an
    error with the devices parsed from the text (the decoded output)
    before the first prompt: these, not the count, are what the loop
    over the devices runs on. *)
Theorem count_mismatch_tolerated (fuel : nat) (ul im : string)
    (process : list chunk) (s : state) :
  initial_prompt (spawned ul im process) = Returned tt s ->
  num_devices (self s) <> Z.of_nat (length (devices (self s))) ->
  trace s = [Sent ("r" ++ newline); Spawned default_command]
  /\ (exists output text f pend,
         expect_loop Pat.rescan_prompt None "" process = Hit output f pend
         /\ decode output = Decoded text
         /\ devices (self s) = parse_devices text)
  /\ session fuel (spawned ul im process)
     = match devices (self s) with
       | [] => (logging INFO "No Radxa devices found." ;; logging INFO maskrom_hint) s
       | _ :: _ => for_each (devices (self s)) (run_upgrade fuel) s
       end.
Proof.
  intros H Hne.
  assert (Hs : session fuel (spawned ul im process)
               = match devices (self s) with
                 | [] => (logging INFO "No Radxa devices found." ;;
                          logging INFO maskrom_hint) s
                 | _ :: _ => for_each (devices (self s)) (run_upgrade fuel) s
                 end).
  { unfold session. unfold bind at 1. rewrite H. unfold bind at 1, get at 1.
    now destruct (devices (self s)). }
  destruct (initial_prompt_spawned ul im process s H)
    as [[Hd Hn] | (output & text & f & pend & He & Hx & Hd & Ht)].
  - rewrite Hd, Hn in Hne. now destruct Hne.
  - split; [exact Ht | split; [ | exact Hs]].
    now exists output, text, f, pend.
Qed.

Lemma count_mismatch_tolerated_witness :
  initial_prompt (spawned "loader.bin" "image.img" process_count_mismatch)
  = Returned tt after_count_mismatch
  /\ num_devices (self after_count_mismatch)
     <> Z.of_nat (length (devices (self after_count_mismatch)))
  /\ trace after_count_mismatch = [Sent ("r" ++ newline); Spawned default_command].
Proof.
  assert (H : initial_prompt (spawned "loader.bin" "image.img" process_count_mismatch)
              = Returned tt after_count_mismatch) by (vm_compute; reflexivity).
  assert (Hne : num_devices (self after_count_mismatch)
                <> Z.of_nat (length (devices (self after_count_mismatch))))
    by (cbn; discriminate).
  split; [exact H | split; [exact Hne | ]].
  exact (proj1 (count_mismatch_tolerated 2 _ _ _ _ H Hne)).
Defined.

(** ** Exceptions

    Once the child is spawned, a session can end in two exceptions only:
    [EOF], and [UnicodeDecodeError] for output that does not decode.  No
    wait can time out without [TIMEOUT] in its list, and the match
    objects the code reads are there when it reads them. *)

Section Triples.

Context {A B : Type}.

Lemma triple_ret (P : state -> Prop) (Q : A -> state -> Prop) (a : A) :
  (forall s, P s -> Q a s) -> triple P (ret a) Q.
Proof. intros H s Hs. now apply H. Qed.

Lemma triple_bind (P : state -> Prop) (R : A -> state -> Prop)
    (Q : B -> state -> Prop) (m : M A) (k : A -> M B) :
  triple P m R -> (forall a, triple (R a) (k a) Q) -> triple P (bind m k) Q.
Proof.
  intros Hm Hk s Hs. specialize (Hm s Hs). unfold bind.
  destruct (m s) as [a s'|e s'|s'|s']; auto. now apply Hk.
Qed.

Lemma triple_weaken (P P' : state -> Prop) (Q Q' : A -> state -> Prop) (m : M A) :
  triple P m Q -> (forall s, P' s -> P s) -> (forall a s, Q a s -> Q' a s) ->
  triple P' m Q'.
Proof.
  intros Hm HP HQ s Hs. specialize (Hm s (HP s Hs)).
  destruct (m s); auto.
Qed.

Lemma triple_try (P : state -> Prop) (Q : A -> state -> Prop) (m : M A)
    (h : exn -> M A) :
  triple P m Q -> (forall e, fatal e -> triple (fun _ => True) (h e) Q) ->
  triple P (try_except m h) Q.
Proof.
  intros Hm Hh s Hs. specialize (Hm s Hs). unfold try_except.
  destruct (m s) as [a s'|e s'|s'|s']; auto. now apply Hh.
Qed.

Lemma keeps_bind (m : M A) (k : A -> M B) :
  keeps m -> (forall a, keeps (k a)) -> keeps (bind m k).
Proof. intros Hm Hk. apply (triple_bind well (fun _ => well)); auto. Qed.

End Triples.

Lemma triple_raise {A} (P : state -> Prop) (Q : A -> state -> Prop) (e : exn) :
  fatal e -> triple P (raise e) Q.
Proof. intros He s _. exact He. Qed.

(** The handlers of [TIMEOUT] let a fatal exception through. *)
Lemma triple_reraise {A} (Q : A -> state -> Prop) (h : M A) (e : exn) :
  fatal e ->
  triple (fun _ => True)
    (match e with TIMEOUT => h | _ => raise e end) Q.
Proof. intros [-> | ->]; apply triple_raise; [now left | now right]. Qed.

Lemma keeps_ret {A} (a : A) : keeps (ret a).
Proof. now apply triple_ret. Qed.

Lemma keeps_for_each {A} (l : list A) (body : A -> M unit) :
  (forall x, keeps (body x)) -> keeps (for_each l body).
Proof.
  intros H. induction l as [|x l IH]; cbn [for_each].
  - apply keeps_ret.
  - apply keeps_bind; [apply H | intros _; exact IH].
Qed.

Lemma keeps_emit (e : event) : keeps (emit e).
Proof. intros s Hs. exact Hs. Qed.

Lemma keeps_get {X} (f : UpgradeTool -> X) : keeps (get f).
Proof. intros s Hs. exact Hs. Qed.

Lemma keeps_the_child : keeps the_child.
Proof.
  intros s Hs. unfold the_child, bind, get. unfold well in Hs.
  destruct (child (self s)) eqn:E; cbn; [unfold well; congruence | congruence].
Qed.

Lemma keeps_sendline (text : string) : keeps (sendline text).
Proof.
  unfold sendline. apply keeps_bind; [apply keeps_the_child | intros _].
  apply keeps_emit.
Qed.

Lemma keeps_decode_utf8 (b : string) : keeps (decode_utf8 b).
Proof.
  intros s Hs. unfold decode_utf8.
  destruct (decode b); cbn; [exact Hs | now right | exact I].
Qed.

Lemma keeps_child_before : keeps child_before.
Proof.
  unfold child_before. apply keeps_bind; [apply keeps_the_child | intros c].
  apply keeps_decode_utf8.
Qed.

Lemma keeps_set_num_devices (n : Z) : keeps (set_num_devices n).
Proof. intros s Hs. exact Hs. Qed.

Lemma keeps_set_devices (ds : list RadxaDevice) : keeps (set_devices ds).
Proof. intros s Hs. exact Hs. Qed.

(** A wait without a timeout does not time out. *)
Lemma expect_loop_no_timeout (re : regex) (pend : list chunk) :
  forall buf b pend', expect_loop re None buf pend <> TimedOut b pend'.
Proof.
  induction pend as [|[t|d] pend IH]; intros buf b pend'; cbn [expect_loop];
    destruct (search re buf) as [[? ?]|]; try discriminate; apply IH.
Qed.

(** What a wait hits is a match of its pattern. *)
Lemma expect_loop_hit (re : regex) (pend : list chunk) :
  forall timeout buf b f pend',
    expect_loop re timeout buf pend = Hit b f pend' ->
    rmatch re (matched f ++ rest f) = Some f.
Proof.
  induction pend as [|[t|d] pend IH]; intros timeout buf b f pend';
    cbn [expect_loop]; destruct (search re buf) as [[b0 f0]|] eqn:S;
    try (intros [= <- <- <-]; now apply search_sound in S);
    try discriminate.
  - apply IH.
  - destruct timeout as [t|]; [ | apply IH].
    destruct (Nat.leb t d); [discriminate | apply IH].
Qed.

Lemma index_of_from (sp : special) (more : list special) :
  forall k i, index_of sp more k = Some i -> k <= i /\ more <> [].
Proof.
  induction more as [|x more IH]; intros k i; cbn [index_of]; [discriminate | ].
  destruct (special_eqb sp x).
  - intros [= <-]. split; [lia | discriminate].
  - intros H. apply IH in H. split; [lia | discriminate].
Qed.

(** [expect] returns 0 with a match in the child, or the index of [EOF]
    or [TIMEOUT]; it raises [EOF] only, when its timeout, if any, is
    listed. *)
Lemma triple_expect (re : regex) (more : list special) (timeout : option nat) :
  timeout = None \/ index_of P_TIMEOUT more 1 <> None ->
  triple well (expect re more timeout)
    (fun i s => (i = 0 /\ matched_by re s) \/ (i <> 0 /\ well s /\ more <> [])).
Proof.
  intros Ht [[ul im cmd [c|] n ds] tr] Hs; unfold well in Hs; cbn in Hs;
    [ | congruence].
  unfold expect, bind, the_child, get. cbn.
  destruct (expect_loop re timeout (buffer c) (pending c)) as [b f pend|b|b pend] eqn:E;
    cbn.
  - left. split; [reflexivity | ].
    eexists _, f. cbn. repeat split. now apply expect_loop_hit in E.
  - destruct (index_of P_EOF more 1) as [i|] eqn:Ei; cbn; [ | now left].
    apply index_of_from in Ei as [Hi Hm]. right.
    repeat split; [lia | discriminate | exact Hm].
  - destruct (index_of P_TIMEOUT more 1) as [i|] eqn:Ei; cbn.
    + apply index_of_from in Ei as [Hi Hm]. right.
      repeat split; [lia | discriminate | exact Hm].
    + destruct Ht as [-> | Ht]; [ | congruence].
      now apply expect_loop_no_timeout in E.
Qed.

Lemma matched_by_well (re : regex) (s : state) : matched_by re s -> well s.
Proof. intros (c & f & H & _). unfold well. congruence. Qed.

Lemma keeps_expect (re : regex) (more : list special) (timeout : option nat) :
  timeout = None \/ index_of P_TIMEOUT more 1 <> None ->
  keeps (expect re more timeout).
Proof.
  intros Ht. eapply triple_weaken; [now apply triple_expect | auto | ].
  intros i s [[_ H] | (_ & H & _)]; [now apply matched_by_well in H | exact H].
Qed.

Lemma keeps_expect_initial_prompt : keeps expect_initial_prompt.
Proof.
  unfold expect_initial_prompt.
  apply keeps_bind; [apply keeps_expect; now left | intros _; apply keeps_ret].
Qed.

Lemma keeps_upgrade_loader (location : Z) : keeps (upgrade_loader location).
Proof.
  unfold upgrade_loader. apply triple_try; [ | intros e; apply triple_reraise].
  apply keeps_bind; [apply keeps_expect; right; discriminate | intros _].
  apply keeps_bind; [apply keeps_child_before | intros output].
  destruct (str_in "Upgrade loader ok" output); [apply keeps_emit | ].
  destruct (str_in "Download Boot Fail" output); [ | apply keeps_emit].
  apply keeps_bind; [apply keeps_emit | intros _; apply keeps_emit].
Qed.

Lemma found_prompt_groups (s : string) (f : found) :
  rmatch Pat.found_prompt s = Some f -> exists g, groups f = [g].
Proof.
  unfold rmatch, Pat.found_prompt. cbn [match_at]. intros H.
  destruct (strip _ s) as [s1|]; [ | discriminate].
  destruct s1 as [|c s1]; [discriminate | ].
  destruct (is_digit c); [ | discriminate].
  apply greedy_sound in H as (t & s2 & -> & Ht & H).
  cbn [match_at] in H.
  destruct (strip _ s2) as [s3|]; [ | discriminate].
  injection H as <-. now exists (String c t).
Qed.

(** What the loop reads after a hit is a progress marker: bytes that
    decode to themselves, with a percentage in them. *)
Lemma triple_progress_group :
  triple (matched_by Pat.progress_line) (child_match_group 0)
    (fun group_0 s => well s /\ exists dg, group_0 = marker dg /\ digits dg).
Proof.
  intros [[ul im cmd ch n ds] tr] (c & f & Hc & Hf & Hm). cbn in Hc. subst ch.
  unfold child_match_group, bind, the_child, get. cbn.
  rewrite Hf. cbn. split; [discriminate | ].
  now apply progress_line_match in Hm.
Qed.

Lemma triple_progress_message (group_0 : string) :
  triple (fun s => well s /\ exists dg, group_0 = marker dg /\ digits dg)
    (decode_utf8 group_0)
    (fun msg s => well s /\ progress_percentage msg <> None).
Proof.
  intros s (Hw & dg & -> & Hd). unfold decode_utf8.
  rewrite (decode_marker dg Hd). cbv beta iota delta [ret].
  split; [exact Hw | ].
  rewrite (percentage_of_marker dg Hd). discriminate.
Qed.

Lemma triple_count_group :
  triple (matched_by Pat.found_prompt) (child_match_group 1) (fun _ => well).
Proof.
  intros [[ul im cmd ch n ds] tr] (c & f & Hc & Hf & Hm). cbn in Hc. subst ch.
  unfold child_match_group, bind, the_child, get. cbn.
  rewrite Hf. apply found_prompt_groups in Hm as [g ->]. cbn.
  discriminate.
Qed.

Lemma keeps_writing_lba_loop (fuel : nat) :
  forall last_percentage, keeps (writing_lba_loop fuel last_percentage).
Proof.
  induction fuel as [|fuel IH]; intros last; cbn [writing_lba_loop].
  - intros s _. exact I.
  - eapply triple_bind; [apply triple_expect; now left | intros index].
    destruct (index =? 0) eqn:Ei.
    + apply Z.eqb_eq in Ei. subst index.
      apply (triple_weaken (matched_by Pat.progress_line) _ (fun _ => well) (fun _ => well));
        [ | intros s [[_ H] | [H _]]; [exact H | now destruct H] | auto].
      eapply triple_bind; [apply triple_progress_group | intros group_0].
      eapply triple_bind; [apply triple_progress_message | intros msg].
      destruct (progress_percentage msg) as [pct|] eqn:Ep.
      * apply (triple_weaken well _ (fun _ => well) (fun _ => well));
          [ | intros s [H _]; exact H | auto].
        apply keeps_bind; [ | intros last'].
        -- destruct (negb (pct =? last)); [ | apply keeps_ret].
           apply keeps_bind; [apply keeps_emit | intros _; apply keeps_ret].
        -- destruct (pct =? 100); [ | apply IH].
           apply keeps_bind; [apply keeps_emit | intros _; apply keeps_emit].
      * intros s [_ H]. congruence.
    + apply (triple_weaken well _ (fun _ => well) (fun _ => well)); [apply IH | | auto].
      intros s [[H _] | (_ & H & _)]; [subst; discriminate | exact H].
Qed.

Lemma keeps_writing_lba (fuel : nat) : keeps (writing_lba fuel).
Proof.
  unfold writing_lba.
  apply keeps_bind; [apply keeps_writing_lba_loop | intros _].
  apply keeps_bind; [apply keeps_sendline | intros _].
  apply keeps_expect_initial_prompt.
Qed.

Lemma keeps_write_lba (fuel : nat) (location : Z) : keeps (write_lba fuel location).
Proof.
  unfold write_lba. apply triple_try; [ | intros e; apply triple_reraise].
  apply keeps_bind; [apply keeps_expect; right; discriminate | intros _].
  apply keeps_bind; [apply keeps_child_before | intros output].
  destruct (str_in "Write LBA failed!" output);
    (apply keeps_bind; [apply keeps_emit | intros _]).
  - apply keeps_emit.
  - apply keeps_writing_lba.
Qed.

Lemma keeps_send_upgrade_commands (fuel : nat) (location : Z) :
  keeps (send_upgrade_commands fuel location).
Proof.
  intros s Hs. rewrite send_upgrade_commands_unfold. revert Hs.
  generalize (ul_command (self s)) as ul, (wl_command (self s)) as wl.
  intros ul wl. revert s.
  apply keeps_bind; [ | intros _; apply keeps_bind; [ | intros _; apply keeps_ret]].
  - apply keeps_bind; [apply keeps_sendline | intros _].
    apply keeps_bind; [apply keeps_upgrade_loader | intros _; apply keeps_ret].
  - apply keeps_bind; [apply keeps_sendline | intros _].
    apply keeps_bind; [apply keeps_ret | intros _].
    apply keeps_write_lba.
Qed.

Lemma keeps_run_upgrade (fuel : nat) (device : RadxaDevice) :
  keeps (run_upgrade fuel device).
Proof.
  unfold run_upgrade.
  apply keeps_bind; [apply keeps_sendline | intros _].
  apply keeps_bind; [apply keeps_expect; now left | intros _].
  apply keeps_send_upgrade_commands.
Qed.

Lemma keeps_initial_prompt : keeps initial_prompt.
Proof.
  unfold initial_prompt, rescan_devices.
  apply keeps_bind; [apply keeps_expect_initial_prompt | intros _].
  apply keeps_bind; [apply keeps_child_before | intros output].
  destruct (str_in "No found rockusb" output); [apply keeps_emit | ].
  destruct (str_in "Select input DevNo" output); [ | apply keeps_ret].
  apply keeps_bind; [apply keeps_sendline | intros _].
  eapply triple_bind; [apply triple_expect; now left | intros index].
  apply (triple_weaken (matched_by Pat.found_prompt) _ (fun _ => well) (fun _ => well));
    [ | intros s [[_ H] | (_ & _ & H)]; [exact H | congruence] | auto].
  eapply triple_bind; [apply triple_count_group | intros count].
  apply keeps_bind; [apply keeps_set_num_devices | intros _].
  apply keeps_set_devices.
Qed.

Lemma keeps_session (fuel : nat) : keeps (session fuel).
Proof.
  unfold session.
  apply keeps_bind; [apply keeps_initial_prompt | intros _].
  intros s Hs. unfold bind at 1, get at 1.
  destruct (devices (self s)) as [|d ds].
  - revert s Hs. apply keeps_bind; [apply keeps_emit | intros _; apply keeps_emit].
  - revert s Hs. apply keeps_for_each. intros x. apply keeps_run_upgrade.
Qed.

Lemma sendline_well (text : string) (s : state) :
  well s ->
  sendline text s = Returned tt (mkState (self s) (Sent (text ++ newline) :: trace s)).
Proof.
  destruct s as [[ul im cmd [c|] n ds] tr]; unfold well; cbn;
    [reflexivity | congruence].
Qed.

(** X11: [send_upgrade_commands] sends its two commands in a row:
    whatever [upgrade_loader] found (success, failure, an answer it does
    not know, a timeout), once it returns the image-write command is
    written to the process. *)
Lemma image_write_follows_loader (fuel : nat) (location : Z) (s s1 : state) :
  well s ->
  (sendline (ul_command (self s)) ;; upgrade_loader location ;; ret tt) s
  = Returned tt s1 ->
  In (wl_command (self s) ++ newline)
    (sent (trace (final (send_upgrade_commands fuel location s)))).
Proof.
  intros Hw H. rewrite send_upgrade_commands_unfold.
  assert (K : keeps (sendline (ul_command (self s)) ;;
                     upgrade_loader location ;; ret tt)).
  { apply keeps_bind; [apply keeps_sendline | intros _].
    apply keeps_bind; [apply keeps_upgrade_loader | intros _; apply keeps_ret]. }
  specialize (K s Hw). rewrite H in K.
  unfold bind at 1. rewrite H.
  set (x := wl_command (self s) ++ newline).
  set (J := fun st : state => In x (sent (trace st))).
  assert (F : forall t t' tr,
             ul_file t' = ul_file t -> im_file t' = im_file t ->
             devices t' = devices t ->
             J (mkState t tr) -> J (mkState t' tr)) by (intros; assumption).
  assert (E : forall t tr e, True -> J (mkState t tr) -> J (mkState t (e :: tr))).
  { intros t tr e _ Hj. unfold J in *. cbn [trace] in *.
    destruct e; cbn [sent]; auto. now right. }
  assert (P : preserves J ((ret tt ;; write_lba fuel location) ;; ret tt)).
  { apply preserves_bind; [ | intros _; now apply hoare_ret].
    apply preserves_bind; [now apply hoare_ret | intros _].
    apply (preserves_write_lba J (fun _ => True)); auto. }
  unfold bind at 1. unfold bind at 1. rewrite (sendline_well _ s1 K).
  apply (P (mkState (self s1) (Sent x :: trace s1))).
  unfold J. cbn. now left.
Qed.

(** ** The exit status *)





(** * Further properties of the code *)

(** ** The device parser on any text *)

Section DeviceParserSound.

(** What the descriptor pattern matches is a descriptor, and its groups
    are the four fields. *)
Lemma descriptor_match_sound (s : string) (f : found) :
  rmatch Pat.descriptor s = Some f ->
  exists ws1 ws2 d sep v p l,
    s = descriptor_text ws1 ws2 d sep v p l ++ rest f
    /\ groups f = [d; v; p; l]
    /\ spaces ws1 /\ spaces ws2 /\ digits d /\ is_nondigit sep = true
    /\ hexs v /\ hexs p /\ digits l.
Proof.
  unfold rmatch, Pat.descriptor. cbn [match_at]. intros H.
  destruct (strip "DevNo" s) as [s1|] eqn:E1; [ | discriminate].
  apply strip_sound in E1; subst s.
  apply greedy_sound in H as (ws1 & s2 & -> & Hw1 & H). cbn [match_at] in H.
  destruct (strip "=" s2) as [s3|] eqn:E2; [ | discriminate].
  apply strip_sound in E2; subst s2.
  apply greedy_sound in H as (ws2 & s4 & -> & Hw2 & H). cbn [match_at] in H.
  destruct s4 as [|c1 s4]; [discriminate | ].
  destruct (is_digit c1) eqn:Hc1; [ | discriminate].
  apply greedy_sound in H as (d & s5 & -> & Hd & H). cbn [match_at] in H.
  destruct s5 as [|sep s5]; [discriminate | ].
  destruct (is_nondigit sep) eqn:Hsep; [ | discriminate].
  destruct (strip "Vid=0x" s5) as [s6|] eqn:E3; [ | discriminate].
  apply strip_sound in E3; subst s5.
  destruct s6 as [|c2 s6]; [discriminate | ].
  destruct (is_hex c2) eqn:Hc2; [ | discriminate].
  apply greedy_sound in H as (v & s7 & -> & Hv & H). cbn [match_at] in H.
  destruct (strip ",Pid=0x" s7) as [s8|] eqn:E4; [ | discriminate].
  apply strip_sound in E4; subst s7.
  destruct s8 as [|c3 s8]; [discriminate | ].
  destruct (is_hex c3) eqn:Hc3; [ | discriminate].
  apply greedy_sound in H as (p & s9 & -> & Hp & H). cbn [match_at] in H.
  destruct (strip ",LocationID=" s9) as [s10|] eqn:E5; [ | discriminate].
  apply strip_sound in E5; subst s9.
  destruct s10 as [|c4 s10]; [discriminate | ].
  destruct (is_digit c4) eqn:Hc4; [ | discriminate].
  apply greedy_sound in H as (l & s11 & -> & Hl & H). cbn [match_at] in H.
  injection H as <-. cbn [groups rest rev app].
  exists ws1, ws2, (String c1 d), sep, (String c2 v), (String c3 p), (String c4 l).
  unfold descriptor_text, spaces, digits, hexs. cbn [all_chars].
  rewrite Hc1, Hc2, Hc3, Hc4, Hd, Hv, Hp, Hl.
  repeat split; try assumption; try discriminate.
  cbn [append]. rewrite !append_assoc. cbn [append].
  repeat (f_equal; rewrite ?append_assoc; cbn [append]).
Qed.

(** Every tuple of [findall] comes from a match somewhere in the text. *)
Lemma findall_from_sound (re : regex) (n : nat) :
  forall s g,
    In g (findall_from n re s) ->
    exists pre f, s = pre ++ matched f ++ rest f
                  /\ rmatch re (matched f ++ rest f) = Some f /\ g = groups f.
Proof.
  induction n as [|n IH]; intros s g H; [destruct H | ].
  cbn [findall_from] in H.
  assert (Skip : forall c s', s = String c s' -> In g (findall_from n re s') ->
                 exists pre f, s = pre ++ matched f ++ rest f
                   /\ rmatch re (matched f ++ rest f) = Some f /\ g = groups f).
  { intros c s' -> Hin. destruct (IH _ _ Hin) as (pre & f & -> & Hm & Hg).
    exists (String c pre), f. auto. }
  destruct (rmatch re s) as [f|] eqn:E.
  - pose proof (rmatch_sound _ _ _ E) as Es.
    destruct H as [<- | H].
    + exists "", f. cbn [append]. rewrite <- Es. auto.
    + destruct (matched f) as [|c m] eqn:Em.
      * destruct s as [|c s']; [destruct H | ]. now apply (Skip c s').
      * destruct (IH _ _ H) as (pre & f' & Hr & Hm & Hg).
        exists (String c m ++ pre), f'. rewrite append_assoc, <- Hr. auto.
  - destruct s as [|c s']; [destruct H | ]. now apply (Skip c s').
Qed.

Lemma devices_of_sound (gs : list (list string)) (dev : RadxaDevice) :
  In dev (devices_of gs) -> exists g, In g gs /\ device_of_groups g = Some dev.
Proof.
  induction gs as [|g gs IH]; cbn [devices_of]; intros H; [destruct H | ].
  destruct (device_of_groups g) as [d0|] eqn:E.
  - destruct H as [<- | H]; [exists g; split; [now left | exact E] | ].
    destruct (IH H) as (g' & Hin & Hg). exists g'. split; [now right | exact Hg].
  - destruct (IH H) as (g' & Hin & Hg). exists g'. split; [now right | exact Hg].
Qed.

End DeviceParserSound.

(** X1: whatever the text, every device the parser returns was read off
    a descriptor that stands in the text: its numbers are the values of
    two runs of digits and are not negative, and its [vid] and [pid] are
    the non-empty runs of hexadecimal digits written there. *)
Theorem parse_devices_sound (text : string) (dev : RadxaDevice) :
  In dev (parse_devices text) ->
  exists pre ws1 ws2 d sep v p l post,
    text = pre ++ descriptor_text ws1 ws2 d sep v p l ++ post
    /\ spaces ws1 /\ spaces ws2 /\ digits d /\ is_nondigit sep = true
    /\ hexs v /\ hexs p /\ digits l
    /\ dev = mkRadxaDevice (int d) v p (int l)
    /\ 0 <= devno dev /\ 0 <= location_id dev.
Proof.
  unfold parse_devices, findall. intros H.
  apply devices_of_sound in H as (g & Hin & Hg).
  apply findall_from_sound in Hin as (pre & f & -> & Hm & ->).
  apply descriptor_match_sound in Hm
    as (ws1 & ws2 & d & sep & v & p & l & Hs & Hgr & H1 & H2 & H3 & H4 & H5 & H6 & H7).
  rewrite Hgr in Hg. cbn in Hg. injection Hg as <-.
  exists pre, ws1, ws2, d, sep, v, p, l, (rest f). rewrite Hs.
  repeat split; try assumption; try apply H3; try apply H5; try apply H6;
    try apply H7; cbn; apply int_nonneg; [apply H3 | apply H7].
Qed.

Lemma parse_devices_sound_witness :
  In (mkRadxaDevice 1 "2207" "350a" 103) (parse_devices listing_one)
  /\ exists pre ws1 ws2 d sep v p l post,
       listing_one = pre ++ descriptor_text ws1 ws2 d sep v p l ++ post
       /\ mkRadxaDevice 1 "2207" "350a" 103 = mkRadxaDevice (int d) v p (int l).
Proof.
  assert (H : In (mkRadxaDevice 1 "2207" "350a" 103) (parse_devices listing_one))
    by (vm_compute; now left).
  split; [exact H | ].
  destruct (parse_devices_sound _ _ H)
    as (pre & ws1 & ws2 & d & sep & v & p & l & post & Ht & _ & _ & _ & _ & _ & _ & _ & Hd & _).
  now exists pre, ws1, ws2, d, sep, v, p, l, post.
Defined.

(** ** The device parser on a text that begins with a descriptor *)

Lemma match_star_run (re : regex) (caps : list string) (acc : string) (r : found)
    (p : ascii -> bool) (t s : string) :
  all_chars p t = true -> stops p s ->
  match_at re caps (acc ++ t) s = Some r ->
  match_at (Star p :: re) caps acc (t ++ s) = Some r.
Proof.
  intros Ht Hs H. cbn [match_at].
  apply (greedy_run p t s (fun t0 s' => match_at re caps (acc ++ t0) s') r);
    assumption.
Qed.

Lemma descriptor_text_match (ws1 ws2 d : string) (sep : ascii) (v p l tail : string) :
  spaces ws1 -> spaces ws2 -> digits d -> is_nondigit sep = true ->
  hexs v -> hexs p -> digits l -> stops is_digit tail ->
  exists f,
    rmatch Pat.descriptor (descriptor_text ws1 ws2 d sep v p l ++ tail) = Some f
    /\ groups f = [d; v; p; l] /\ rest f = tail /\ matched f <> "".
Proof.
  intros Hw1 Hw2 Hd Hsep Hv Hp Hl Ht. unfold descriptor_text.
  assert (E : ("DevNo" ++ ws1 ++ "=" ++ ws2 ++ d
                 ++ String sep ("Vid=0x" ++ v ++ ",Pid=0x" ++ p ++ ",LocationID=" ++ l))
                ++ tail
              = "DevNo" ++ ws1 ++ "=" ++ ws2 ++ d
                  ++ String sep ("Vid=0x" ++ v ++ ",Pid=0x" ++ p
                                   ++ ",LocationID=" ++ l ++ tail)).
  { cbn [append]. repeat (f_equal; rewrite ?append_assoc; cbn [append]). }
  rewrite E. clear E.
  eexists. split; [ | split; [ | split]].
  - unfold rmatch, Pat.descriptor.
    apply match_lit. apply match_star_run; [exact Hw1 | reflexivity | ].
    apply match_lit.
    apply match_star_run; [exact Hw2 | now apply stops_space_digits | ].
    apply match_cap; [apply Hd | apply Hd | cbn; now apply negb_true_iff in Hsep | ].
    apply (match_one _ _ _ _ is_nondigit sep); [exact Hsep | ].
    apply match_lit.
    apply match_cap; [apply Hv | apply Hv | reflexivity | ].
    apply match_lit.
    apply match_cap; [apply Hp | apply Hp | reflexivity | ].
    apply match_lit.
    apply match_cap; [apply Hl | apply Hl | exact Ht | ].
    reflexivity.
  - reflexivity.
  - reflexivity.
  - cbn [matched append]. discriminate.
Qed.

(** X2: a text that begins with a descriptor (white space allowed around
    [=], any one non-digit between the device number and [Vid]) and goes
    on with something other than a digit yields the device of that
    descriptor, followed by the devices of the rest of the text. *)
Theorem parse_devices_descriptor (ws1 ws2 d : string) (sep : ascii)
    (v p l tail : string) :
  spaces ws1 -> spaces ws2 -> digits d -> is_nondigit sep = true ->
  hexs v -> hexs p -> digits l -> stops is_digit tail ->
  parse_devices (descriptor_text ws1 ws2 d sep v p l ++ tail)
  = mkRadxaDevice (int d) v p (int l) :: parse_devices tail.
Proof.
  intros Hw1 Hw2 Hd Hsep Hv Hp Hl Ht.
  destruct (descriptor_text_match ws1 ws2 d sep v p l tail
              Hw1 Hw2 Hd Hsep Hv Hp Hl Ht) as (f & Hm & Hg & Hr & Hne).
  unfold parse_devices. rewrite (findall_match _ _ _ Hm Hne), Hg, Hr.
  reflexivity.
Qed.

Lemma parse_devices_descriptor_witness :
  parse_devices
    (descriptor_text " " "" "1" "009" "2207" "350a" "103"
       ++ String "009" "Mode=Maskrom")
  = mkRadxaDevice (int "1") "2207" "350a" (int "103")
      :: parse_devices (String "009" "Mode=Maskrom").
Proof.
  apply parse_devices_descriptor;
    try reflexivity; split; try reflexivity; discriminate.
Defined.

(** ** The handlers of [TIMEOUT] *)

Section RaisesOnly.

Context {A B : Type}.
Variable ok : exn -> Prop.

Lemma raises_only_ret (a : A) : raises_only ok (ret a).
Proof. intros s e s' H. discriminate H. Qed.

Lemma raises_only_raise (e : exn) : ok e -> raises_only ok (@raise A e).
Proof. intros He s e' s' [= <- _]. exact He. Qed.

Lemma raises_only_bind (m : M A) (k : A -> M B) :
  raises_only ok m -> (forall a, raises_only ok (k a)) ->
  raises_only ok (bind m k).
Proof.
  intros Hm Hk s e s'. unfold bind.
  destruct (m s) as [a s1|e1 s1|s1|s1] eqn:E; intros H.
  - now apply (Hk a s1 e s').
  - injection H as <- _. now apply (Hm s e1 s1).
  - discriminate H.
  - discriminate H.
Qed.

(** A [try] whose body does not raise what its handler is for is its
    body. *)
Lemma try_except_body (m : M A) (h : exn -> M A) :
  raises_only ok m -> (forall e, ok e -> h e = raise e) ->
  forall s, try_except m h s = m s.
Proof.
  intros Hm Hh s. unfold try_except.
  destruct (m s) as [a s1|e s1|s1|s1] eqn:E; try reflexivity.
  now rewrite (Hh e (Hm s e s1 E)).
Qed.

End RaisesOnly.

Lemma raises_only_emit (ok : exn -> Prop) (e : event) : raises_only ok (emit e).
Proof. intros s x s' H. discriminate H. Qed.

Lemma raises_only_the_child : raises_only not_timeout the_child.
Proof.
  intros s e s'. unfold the_child, bind, get.
  destruct (child (self s)); [discriminate | ].
  intros [= <- _]. discriminate.
Qed.

Lemma raises_only_set_child (ok : exn -> Prop) (c : option spawn) :
  raises_only ok (set_child c).
Proof. intros s x s' H. discriminate H. Qed.

Lemma raises_only_sendline (text : string) : raises_only not_timeout (sendline text).
Proof.
  unfold sendline.
  apply raises_only_bind; [apply raises_only_the_child | intros _].
  apply raises_only_emit.
Qed.

Lemma raises_only_decode_utf8 (b : string) :
  raises_only not_timeout (decode_utf8 b).
Proof.
  intros s e s'. unfold decode_utf8.
  destruct (decode b); try discriminate. intros [= <- _]. discriminate.
Qed.

Lemma raises_only_child_before : raises_only not_timeout child_before.
Proof.
  unfold child_before.
  apply raises_only_bind; [apply raises_only_the_child | intros c].
  apply raises_only_decode_utf8.
Qed.

Lemma raises_only_child_match_group (i : nat) :
  raises_only not_timeout (child_match_group i).
Proof.
  unfold child_match_group.
  apply raises_only_bind; [apply raises_only_the_child | intros c].
  destruct (last_match c) as [f|];
    [ | apply raises_only_raise; discriminate].
  destruct i as [|j]; [apply raises_only_ret | ].
  destruct (nth_error (groups f) j);
    [apply raises_only_ret | apply raises_only_raise; discriminate].
Qed.

(** [expect] does not raise [TIMEOUT] when it has no timeout or lists
    [TIMEOUT] among its patterns. *)
Lemma raises_only_expect (re : regex) (more : list special) (timeout : option nat) :
  timeout = None \/ index_of P_TIMEOUT more 1 <> None ->
  raises_only not_timeout (expect re more timeout).
Proof.
  intros Ht. unfold expect.
  apply raises_only_bind; [apply raises_only_the_child | intros c].
  destruct (expect_loop re timeout (buffer c) (pending c)) as [b f pend|b|b pend] eqn:E;
    (apply raises_only_bind; [apply raises_only_set_child | intros _]).
  - apply raises_only_ret.
  - destruct (index_of P_EOF more 1);
      [apply raises_only_ret | apply raises_only_raise; discriminate].
  - destruct (index_of P_TIMEOUT more 1) eqn:Ei; [apply raises_only_ret | ].
    destruct Ht as [-> | Ht]; [ | congruence].
    now apply expect_loop_no_timeout in E.
Qed.

Lemma raises_only_writing_lba_loop (fuel : nat) :
  forall last_percentage,
    raises_only not_timeout (writing_lba_loop fuel last_percentage).
Proof.
  induction fuel as [|fuel IH]; intros last; cbn [writing_lba_loop].
  - intros s e s' H. discriminate H.
  - apply raises_only_bind; [apply raises_only_expect; now left | intros index].
    destruct (index =? 0); [ | apply IH].
    apply raises_only_bind; [apply raises_only_child_match_group | intros group_0].
    apply raises_only_bind; [apply raises_only_decode_utf8 | intros msg].
    destruct (progress_percentage msg) as [pct|];
      [ | apply raises_only_raise; discriminate].
    apply raises_only_bind; [ | intros last'].
    + destruct (negb (pct =? last)); [ | apply raises_only_ret].
      apply raises_only_bind; [apply raises_only_emit | intros _].
      apply raises_only_ret.
    + destruct (pct =? 100); [ | apply IH].
      apply raises_only_bind; [apply raises_only_emit | intros _].
      apply raises_only_emit.
Qed.

Lemma raises_only_writing_lba (fuel : nat) :
  raises_only not_timeout (writing_lba fuel).
Proof.
  unfold writing_lba, expect_initial_prompt.
  apply raises_only_bind; [apply raises_only_writing_lba_loop | intros _].
  apply raises_only_bind; [apply raises_only_sendline | intros _].
  apply raises_only_bind; [apply raises_only_expect; now left | intros _].
  apply raises_only_ret.
Qed.

(** [upgrade_loader] is the body of its [try]: the handler of [TIMEOUT]
    never runs, because [TIMEOUT] is in the pattern list of the wait. *)
Lemma upgrade_loader_body (location : Z) (s : state) :
  upgrade_loader location s
  = (_ <- expect Pat.rockusb_prompt [P_TIMEOUT] (Some 500%nat) ;;
     output <- child_before ;;
     if str_in "Upgrade loader ok" output then
       logging INFO ("Upgrade loader for device in location " ++ str location
                       ++ " was successful.")
     else if str_in "Download Boot Fail" output then
       logging ERROR ("Upgrade loader command for device in location "
                        ++ str location ++ " failed.") ;;
       logging INFO maskrom_hint
     else
       logging ERROR ("Unknow error for device in location " ++ str location ++ ".")) s.
Proof.
  unfold upgrade_loader. apply (try_except_body not_timeout).
  - apply raises_only_bind; [apply raises_only_expect; right; discriminate | intros _].
    apply raises_only_bind; [apply raises_only_child_before | intros output].
    destruct (str_in "Upgrade loader ok" output); [apply raises_only_emit | ].
    destruct (str_in "Download Boot Fail" output); [ | apply raises_only_emit].
    apply raises_only_bind; [apply raises_only_emit | intros _].
    apply raises_only_emit.
  - intros [] H; try reflexivity. now destruct H.
Qed.

Lemma write_lba_body (fuel : nat) (location : Z) (s : state) :
  write_lba fuel location s
  = (_ <- expect Pat.rockusb_prompt [P_TIMEOUT] (Some 20%nat) ;;
     output <- child_before ;;
     if str_in "Write LBA failed!" output then
       logging ERROR ("Write LBA for device in location " ++ str location
                        ++ " failed") ;;
       logging INFO maskrom_hint
     else
       logging INFO ("Writing LBA for device in location " ++ str location ++ ".") ;;
       writing_lba fuel) s.
Proof.
  unfold write_lba. apply (try_except_body not_timeout).
  - apply raises_only_bind; [apply raises_only_expect; right; discriminate | intros _].
    apply raises_only_bind; [apply raises_only_child_before | intros output].
    destruct (str_in "Write LBA failed!" output);
      (apply raises_only_bind; [apply raises_only_emit | intros _]).
    + apply raises_only_emit.
    + apply raises_only_writing_lba.
  - intros [] H; try reflexivity. now destruct H.
Qed.

Section NeverTimedOut.

Lemma never_timed_out_frame :
  forall t t' tr,
    ul_file t' = ul_file t -> im_file t' = im_file t ->
    devices t' = devices t ->
    never_timed_out (mkState t tr) -> never_timed_out (mkState t' tr).
Proof. intros t t' tr _ _ _ H. exact H. Qed.

Lemma never_timed_out_event :
  forall t tr e,
    other_than_timed_out e -> never_timed_out (mkState t tr) -> never_timed_out (mkState t (e :: tr)).
Proof.
  intros t tr e He H [Hin | Hin]; [now apply He | now apply H].
Qed.

Ltac other_record :=
  unfold other_than_timed_out, timed_out_log; cbn [append]; discriminate.

Lemma nto_emit (e : event) : other_than_timed_out e -> preserves never_timed_out (emit e).
Proof. apply (preserves_emit never_timed_out other_than_timed_out never_timed_out_event). Qed.

Lemma nto_sendline (text : string) : preserves never_timed_out (sendline text).
Proof.
  apply (preserves_sendline never_timed_out other_than_timed_out never_timed_out_event).
  discriminate.
Qed.

Lemma nto_expect (re : regex) (more : list special) (timeout : option nat) :
  preserves never_timed_out (expect re more timeout).
Proof. apply preserves_expect, never_timed_out_frame. Qed.

Lemma nto_upgrade_loader (location : Z) :
  preserves never_timed_out (upgrade_loader location).
Proof.
  intros s Hs. rewrite upgrade_loader_body. revert s Hs.
  apply preserves_bind; [apply nto_expect | intros _].
  apply preserves_bind; [apply preserves_child_before | intros output].
  destruct (str_in "Upgrade loader ok" output); [apply nto_emit; other_record | ].
  destruct (str_in "Download Boot Fail" output); [ | apply nto_emit; other_record].
  apply preserves_bind; [apply nto_emit; other_record | intros _].
  apply nto_emit; other_record.
Qed.

Lemma nto_writing_lba_loop (fuel : nat) :
  forall last_percentage,
    preserves never_timed_out (writing_lba_loop fuel last_percentage).
Proof.
  induction fuel as [|fuel IH]; intros last; cbn [writing_lba_loop].
  - intros s Hs. exact Hs.
  - apply preserves_bind; [apply nto_expect | intros index].
    destruct (index =? 0); [ | apply IH].
    apply preserves_bind; [apply preserves_child_match_group | intros group_0].
    apply preserves_bind; [apply preserves_decode_utf8 | intros msg].
    destruct (progress_percentage msg) as [pct|]; [ | now apply hoare_raise].
    apply preserves_bind; [ | intros last'].
    + destruct (negb (pct =? last)); [ | now apply hoare_ret].
      apply preserves_bind; [apply nto_emit; other_record | intros _].
      now apply hoare_ret.
    + destruct (pct =? 100); [ | apply IH].
      apply preserves_bind; [apply nto_emit; other_record | intros _].
      apply nto_emit; other_record.
Qed.

Lemma nto_write_lba (fuel : nat) (location : Z) :
  preserves never_timed_out (write_lba fuel location).
Proof.
  intros s Hs. rewrite write_lba_body. revert s Hs.
  apply preserves_bind; [apply nto_expect | intros _].
  apply preserves_bind; [apply preserves_child_before | intros output].
  destruct (str_in "Write LBA failed!" output);
    (apply preserves_bind; [apply nto_emit; other_record | intros _]).
  - apply nto_emit; other_record.
  - unfold writing_lba.
    apply preserves_bind; [apply nto_writing_lba_loop | intros _].
    apply preserves_bind; [apply nto_sendline | intros _].
    apply preserves_expect_initial_prompt, never_timed_out_frame.
Qed.

Lemma nto_run_upgrade (fuel : nat) (device : RadxaDevice) :
  preserves never_timed_out (run_upgrade fuel device).
Proof.
  unfold run_upgrade.
  apply preserves_bind; [apply nto_sendline | intros _].
  apply preserves_bind; [apply nto_expect | intros _].
  intros s Hs. rewrite send_upgrade_commands_unfold. revert Hs.
  generalize (ul_command (self s)) as ul, (wl_command (self s)) as wl.
  intros ul wl. revert s.
  apply preserves_bind; [ | intros _; apply preserves_bind; [ | intros _]].
  - apply preserves_bind; [apply nto_sendline | intros _].
    apply preserves_bind; [apply nto_upgrade_loader | intros _].
    now apply hoare_ret.
  - apply preserves_bind; [apply nto_sendline | intros _].
    apply preserves_bind; [now apply hoare_ret | intros _].
    apply nto_write_lba.
  - now apply hoare_ret.
Qed.

Lemma nto_initial_prompt : preserves never_timed_out initial_prompt.
Proof.
  unfold initial_prompt, rescan_devices.
  apply preserves_bind;
    [apply preserves_expect_initial_prompt, never_timed_out_frame | intros _].
  apply preserves_bind; [apply preserves_child_before | intros output].
  destruct (str_in "No found rockusb" output); [apply nto_emit; other_record | ].
  destruct (str_in "Select input DevNo" output); [ | now apply hoare_ret].
  apply preserves_bind; [apply nto_sendline | intros _].
  apply preserves_bind; [apply nto_expect | intros _].
  apply preserves_bind; [apply preserves_child_match_group | intros count].
  apply preserves_bind;
    [apply preserves_set_num_devices, never_timed_out_frame | intros _].
  apply preserves_set_devices. intros t tr ds H. exact H.
Qed.

Lemma nto_run (fuel : nat) (process : list chunk) :
  preserves never_timed_out (run fuel process).
Proof.
  unfold run, session.
  apply preserves_bind; [apply preserves_get | intros cmd].
  apply preserves_bind; [apply nto_emit; other_record | intros _].
  apply preserves_bind;
    [apply preserves_set_child, never_timed_out_frame | intros _].
  apply preserves_try.
  - apply preserves_bind; [apply nto_initial_prompt | intros _].
    apply preserves_bind; [apply preserves_get | intros ds].
    destruct ds as [|d ds].
    + apply preserves_bind; [apply nto_emit; other_record | intros _].
      apply nto_emit; other_record.
    + apply preserves_for_each. intros x _. apply nto_run_upgrade.
  - intros []; [apply nto_emit; other_record | now apply hoare_raise ..].
Qed.

End NeverTimedOut.

(** X5: whatever the process does, and however long it stays silent, a
    run never logs "Upgrade loader command timed out.": the waits of
    [upgrade_loader] and [write_lba] list [TIMEOUT] among their patterns,
    so a timeout comes back as an index and the two
    [except pexpect.TIMEOUT] clauses never run. *)
Theorem timeout_never_reported (fuel : nat) (process : list chunk)
    (t : UpgradeTool) :
  ~ In timed_out_log (trace (final (run fuel process (mkState t [])))).
Proof.
  apply (nto_run fuel process (mkState t [])). intros H. destruct H.
Qed.

(** ** How the write of an image ends *)

Lemma trace_is_frame (tr0 : list event) :
  forall t t' tr,
    ul_file t' = ul_file t -> im_file t' = im_file t ->
    devices t' = devices t ->
    trace_is tr0 (mkState t tr) -> trace_is tr0 (mkState t' tr).
Proof. intros t t' tr _ _ _ H. exact H. Qed.

(** The loop of [writing_lba] is left only through the 100% line, which
    is shown before the completion is reported. *)
Lemma writing_lba_loop_returns (fuel : nat) :
  forall last_percentage s s',
    last_percentage <> 100 ->
    writing_lba_loop fuel last_percentage s = Returned tt s' ->
    exists shown,
      trace s' = Logged INFO "Write process completed." :: Printed newline
                   :: Progress 100 :: shown ++ trace s.
Proof.
  induction fuel as [|fuel IH]; intros last s s' Hl; [discriminate | ].
  cbn [writing_lba_loop]. unfold bind at 1.
  pose proof (preserves_expect _ (trace_is_frame (trace s))
                Pat.progress_line [P_EOF] None s eq_refl) as He.
  destruct (expect Pat.progress_line [P_EOF] None s) as [index s1|e s1|s1|s1];
    try discriminate.
  cbn [final] in He. unfold trace_is in He.
  destruct (index =? 0).
  - unfold bind at 1.
    pose proof (preserves_child_match_group (trace_is (trace s)) 0%nat s1 He) as Hg.
    destruct (child_match_group 0 s1) as [group_0 s2|e s2|s2|s2]; try discriminate.
    cbn [final] in Hg. unfold trace_is in Hg.
    unfold bind at 1, decode_utf8.
    destruct (decode group_0) as [msg| |]; try discriminate.
    unfold ret at 1. cbv beta iota.
    destruct (progress_percentage msg) as [pct|]; [ | discriminate].
    destruct (pct =? last) eqn:Ep; cbn [negb];
      cbv beta delta [bind ret emit print logging] iota;
      destruct (pct =? 100) eqn:E100.
    + apply Z.eqb_eq in Ep. apply Z.eqb_eq in E100. congruence.
    + intros H. destruct (IH _ _ _ Hl H) as [shown Hs].
      exists shown. now rewrite Hs, Hg.
    + apply Z.eqb_eq in E100. subst pct. intros [= <-].
      exists []. cbn. now rewrite Hg.
    + apply Z.eqb_neq in E100. intros H.
      destruct (IH _ _ _ E100 H) as [shown Hs].
      exists (shown ++ [Progress pct])%list. rewrite Hs. cbn [trace].
      rewrite Hg, <- app_assoc. reflexivity.
  - intros H. destruct (IH _ _ _ Hl H) as [shown Hs].
    exists shown. now rewrite Hs, He.
Qed.

Lemma writing_lba_returns (fuel : nat) (s s' : state) :
  writing_lba fuel s = Returned tt s' ->
  exists shown,
    trace s' = Sent ("cd" ++ newline)
                 :: Logged INFO "Write process completed." :: Printed newline
                 :: Progress 100 :: shown ++ trace s.
Proof.
  unfold writing_lba. unfold bind at 1.
  destruct (writing_lba_loop fuel (-1) s) as [[] s1|e s1|s1|s1] eqn:El;
    try discriminate.
  apply writing_lba_loop_returns in El as [shown Hs]; [ | discriminate].
  unfold bind at 1.
  destruct (sendline "cd" s1) as [[] s2|e s2|s2|s2] eqn:Es; try discriminate.
  assert (H2 : trace s2 = Sent ("cd" ++ newline) :: trace s1).
  { destruct s1 as [[u i c [ch|] n ds] tr1]; cbn in Es; [ | discriminate].
    injection Es as <-. reflexivity. }
  pose proof (preserves_expect_initial_prompt _ (trace_is_frame (trace s2))
                s2 eq_refl) as He.
  intros H. rewrite H in He. cbn [final] in He. unfold trace_is in He.
  exists shown. now rewrite He, H2, Hs.
Qed.

(** X3: [writing_lba] returns only after it has read a 100% line: it has
    then shown 100%, logged the completion and sent [cd], in this order.
    Nothing else ends the wait for progress: not a lower percentage, not
    the prompt, not the end of the stream. *)
Theorem writing_lba_returns_after_100 (fuel : nat) (s s' : state) :
  writing_lba fuel s = Returned tt s' ->
  exists shown,
    trace s' = Sent ("cd" ++ newline)
                 :: Logged INFO "Write process completed." :: Printed newline
                 :: Progress 100 :: shown ++ trace s.
Proof. apply writing_lba_returns. Qed.

Lemma writing_lba_returns_after_100_witness :
  writing_lba 1 about_to_complete = Returned tt completed
  /\ exists shown,
       trace completed
       = Sent ("cd" ++ newline)
           :: Logged INFO "Write process completed." :: Printed newline
           :: Progress 100 :: shown ++ trace about_to_complete.
Proof.
  assert (H : writing_lba 1 about_to_complete = Returned tt completed)
    by (vm_compute; reflexivity).
  split; [exact H | ].
  exact (writing_lba_returns_after_100 1 about_to_complete completed H).
Defined.

(** X4: [write_lba] returns in two ways only.  Either the answer to the
    write command carried "Write LBA failed!": the failure and the hint
    are logged and nothing more is sent, not even [cd].  Or the write
    went to 100%: after the record that the write began, 100% was shown,
    the completion logged and [cd] sent. *)
Theorem write_lba_returns (fuel : nat) (location : Z) (s s' : state) :
  write_lba fuel location s = Returned tt s' ->
  trace s'
  = Logged INFO maskrom_hint
      :: Logged ERROR ("Write LBA for device in location " ++ str location ++ " failed")
      :: trace s
  \/ exists shown,
       trace s'
       = Sent ("cd" ++ newline)
           :: Logged INFO "Write process completed." :: Printed newline
           :: Progress 100
           :: shown
           ++ Logged INFO ("Writing LBA for device in location " ++ str location ++ ".")
           :: trace s.
Proof.
  rewrite write_lba_body. unfold bind at 1.
  pose proof (preserves_expect _ (trace_is_frame (trace s))
                Pat.rockusb_prompt [P_TIMEOUT] (Some 20%nat) s eq_refl) as He.
  destruct (expect Pat.rockusb_prompt [P_TIMEOUT] (Some 20%nat) s)
    as [index s1|e s1|s1|s1]; try discriminate.
  cbn [final] in He. unfold trace_is in He. unfold bind at 1.
  pose proof (preserves_child_before (trace_is (trace s)) s1 He) as Hb.
  destruct (child_before s1) as [output s2|e s2|s2|s2]; try discriminate.
  cbn [final] in Hb. unfold trace_is in Hb.
  destruct (str_in "Write LBA failed!" output);
    cbv beta delta [bind logging emit] iota.
  - intros [= <-]. left. cbn [trace]. now rewrite Hb.
  - intros H. right. apply writing_lba_returns in H as [shown Hs].
    exists shown. rewrite Hs. cbn [trace]. now rewrite Hb.
Qed.

Lemma write_lba_returns_witness :
  write_lba 0 103 about_to_reject = Returned tt rejected
  /\ sent (trace rejected) = []
  /\ (trace rejected
      = Logged INFO maskrom_hint
          :: Logged ERROR ("Write LBA for device in location " ++ str 103 ++ " failed")
          :: trace about_to_reject
      \/ exists shown,
           trace rejected
           = Sent ("cd" ++ newline)
               :: Logged INFO "Write process completed." :: Printed newline
               :: Progress 100
               :: shown
               ++ Logged INFO ("Writing LBA for device in location " ++ str 103 ++ ".")
               :: trace about_to_reject).
Proof.
  assert (H : write_lba 0 103 about_to_reject = Returned tt rejected)
    by (vm_compute; reflexivity).
  split; [exact H | split; [reflexivity | ]].
  exact (write_lba_returns 0 103 about_to_reject rejected H).
Defined.

(** ** The order in which the devices are flashed *)





(** ** A tool that offers no device *)

(** X7: when the first prompt arrives and the text before it (what the
    process wrote, decoded) carries the banner "No found rockusb", or
    does not carry "Select input DevNo", the controller sends nothing at
    all (no rescan, no selection), leaves the devices empty, reports
    that no devices were found and returns without an error.  The banner
    wins over a selection text that might stand beside it. *)
Theorem no_devices_without_offer (fuel : nat) (ul im : string)
    (process : list chunk) (output text : string) (f : found)
    (pend : list chunk) :
  expect_loop Pat.rescan_prompt None "" process = Hit output f pend ->
  decode output = Decoded text ->
  str_in "No found rockusb" text = true
  \/ str_in "Select input DevNo" text = false ->
  exists s,
    run fuel process (mkState (built ul im) []) = Returned tt s
    /\ sent (trace s) = []
    /\ devices (self s) = []
    /\ In (Logged INFO "No Radxa devices found.") (trace s)
    /\ ~ In session_error (trace s).
Proof.
  intros He Hd Hb.
  step_controller. rewrite He. step_controller. rewrite Hd. step_controller.
  destruct (str_in "No found rockusb" text) eqn:E1.
  - step_controller.
    eexists; (split; [reflexivity | ]); (split; [reflexivity | ]);
      (split; [reflexivity | ]); (split; [cbn; tauto | ]).
    intros H; repeat (destruct H as [H | H]; [discriminate H | ]); exact H.
  - destruct Hb as [Hb | Hb]; [discriminate Hb | ]. rewrite Hb.
    step_controller.
    eexists; (split; [reflexivity | ]); (split; [reflexivity | ]);
      (split; [reflexivity | ]); (split; [cbn; tauto | ]).
    intros H; repeat (destruct H as [H | H]; [discriminate H | ]); exact H.
Qed.

Lemma no_devices_without_offer_witness :
  exists s,
    run 0 process_no_hardware (mkState (built "loader.bin" "image.img") [])
    = Returned tt s
    /\ sent (trace s) = []
    /\ devices (self s) = []
    /\ In (Logged INFO "No Radxa devices found.") (trace s)
    /\ ~ In session_error (trace s).
Proof.
  exact (no_devices_without_offer 0 "loader.bin" "image.img"
           process_no_hardware "No found rockusb," "No found rockusb,"
           (mkFound [] "Rescan press <R>,Quit press <Q>:" "") []
           eq_refl eq_refl (or_introl eq_refl)).
Defined.

(** ** What the log shows *)

Lemma append_cancel_r (a b c : string) : a ++ c = b ++ c -> a = b.
Proof.
  revert b. induction a as [|x a IH]; intros [|y b] H; cbn [append] in H.
  - reflexivity.
  - apply (f_equal String.length) in H. cbn in H. rewrite length_append in H. lia.
  - apply (f_equal String.length) in H. cbn in H. rewrite length_append in H. lia.
  - injection H as -> H. now rewrite (IH b H).
Qed.

(** X8: the formatter keeps records apart: two records whose levels are
    in the colour table are shown with the same text only when they have
    the same level and the same message; and a record whose level is not
    in the table is shown without a colour in front, and with the reset
    sequence at its end like every other. *)
Theorem format_keeps_records_apart :
  (forall r1 r2,
      known_level (ColoredFormatter.levelname r1) ->
      known_level (ColoredFormatter.levelname r2) ->
      ColoredFormatter.format r1 = ColoredFormatter.format r2 -> r1 = r2)
  /\ (forall r,
         ~ known_level (ColoredFormatter.levelname r) ->
         ColoredFormatter.format r
         = "[" ++ ColoredFormatter.levelname r ++ "] "
               ++ ColoredFormatter.message r ++ ColoredFormatter.RESET).
Proof.
  split.
  - intros [l1 m1] [l2 m2] H1 H2. unfold known_level in *. cbn in H1, H2.
    unfold ColoredFormatter.format. cbn [ColoredFormatter.levelname
                                          ColoredFormatter.message].
    destruct H1 as [<- | [<- | [<- | [<- | []]]]];
      destruct H2 as [<- | [<- | [<- | [<- | []]]]];
      cbn; intros H; try discriminate H;
      injection H as H; apply append_cancel_r in H; now subst.
  - intros [l m] H. unfold known_level in H. cbn in H.
    unfold ColoredFormatter.format, ColoredFormatter.COLORS.
    cbn [ColoredFormatter.levelname ColoredFormatter.message ColoredFormatter.get].
    destruct (String.eqb_spec "ERROR" l) as [E | _]; [tauto | ].
    destruct (String.eqb_spec "WARNING" l) as [E | _]; [tauto | ].
    destruct (String.eqb_spec "INFO" l) as [E | _]; [tauto | ].
    destruct (String.eqb_spec "DEBUG" l) as [E | _]; [tauto | ].
    reflexivity.
Qed.

Lemma format_keeps_records_apart_witness :
  known_level "ERROR"
  /\ ColoredFormatter.mkLogRecord "ERROR" "x" = ColoredFormatter.mkLogRecord "ERROR" "x"
  /\ ~ known_level "CRITICAL"
  /\ ColoredFormatter.format (ColoredFormatter.mkLogRecord "CRITICAL" "x")
     = "[CRITICAL] x" ++ ColoredFormatter.RESET.
Proof.
  assert (H1 : known_level "ERROR") by (cbn; tauto).
  assert (H2 : ~ known_level "CRITICAL").
  { intros H. cbn in H.
    repeat (destruct H as [H | H]; [discriminate H | ]). exact H. }
  split; [exact H1 | split; [ | split; [exact H2 | ]]].
  - exact (proj1 format_keeps_records_apart
             (ColoredFormatter.mkLogRecord "ERROR" "x")
             (ColoredFormatter.mkLogRecord "ERROR" "x") H1 H1 eq_refl).
  - exact (proj2 format_keeps_records_apart
             (ColoredFormatter.mkLogRecord "CRITICAL" "x") H2).
Defined.

(** ** One process for a run *)

Section OneProcess.

Variable first : event.

Lemma one_process_frame :
  forall t t' tr,
    ul_file t' = ul_file t -> im_file t' = im_file t ->
    devices t' = devices t ->
    one_process first (mkState t tr) -> one_process first (mkState t' tr).
Proof. intros t t' tr _ _ _ H. exact H. Qed.

Lemma one_process_event :
  forall t tr e,
    not_spawned e ->
    one_process first (mkState t tr) -> one_process first (mkState t (e :: tr)).
Proof.
  intros t tr e He (later & Ht & Hl). cbn in *.
  exists (e :: later). rewrite Ht. split; [reflexivity | now constructor].
Qed.

Lemma one_process_session (fuel : nat) :
  preserves (one_process first) (session fuel).
Proof.
  assert (F := one_process_frame). assert (E := one_process_event).
  assert (L : forall lv msg, preserves (one_process first) (logging lv msg)).
  { intros. apply (preserves_emit _ not_spawned E). exact I. }
  unfold session.
  apply preserves_bind; [ | intros _].
  - apply (preserves_initial_prompt (one_process first) not_spawned F E);
      try (intros; exact I).
    intros t tr ds H. exact H.
  - apply preserves_bind; [apply preserves_get | intros ds].
    destruct ds as [|d ds].
    + apply preserves_bind; [apply L | intros _; apply L].
    + apply preserves_for_each. intros x _.
      apply (preserves_run_upgrade (one_process first) not_spawned F E);
        intros; exact I.
Qed.

End OneProcess.

(** X9: a run starts exactly one process: the first thing [run] does is
    to spawn the command of the tool, and whatever follows (any number of
    devices, failures, the end of the stream) starts no other. *)
Theorem run_spawns_once (fuel : nat) (process : list chunk) (t : UpgradeTool) :
  exists later,
    rev (trace (final (run fuel process (mkState t []))))
    = Spawned (command t) :: later
    /\ Forall not_spawned later.
Proof.
  assert (H : one_process (Spawned (command t))
                (final (run fuel process (mkState t [])))).
  { unfold run. unfold bind at 1, get at 1. unfold bind at 1, emit at 1.
    cbn [self trace]. unfold bind at 1, set_child at 1. cbn [self trace].
    refine (preserves_try _ _ _ _ _ _ _).
    - apply one_process_session.
    - intros []; [ | now apply hoare_raise ..].
      apply (preserves_emit _ not_spawned (one_process_event _)). exact I.
    - exists []. split; [reflexivity | constructor]. }
  destruct H as (later & Ht & Hl).
  exists (rev later). rewrite Ht, rev_app_distr. cbn.
  split; [reflexivity | now apply Forall_rev].
Qed.

(** ** The progress bar *)

Lemma length_repeat_char (c : ascii) (n : nat) :
  String.length (String.concat "" (List.repeat (String c "") n)) = n.
Proof.
  induction n as [|n IH]; [reflexivity | ].
  destruct n as [|n]; [reflexivity | ].
  change (String.length
            (String c "" ++ ""
               ++ String.concat "" (List.repeat (String c "") (S n)))
          = S (S n)).
  cbn [append String.length]. now rewrite IH.
Qed.

(** X10: for a percentage from 0 to 100 the bar of line 183 is 52
    characters wide when the percentage is even and 51 when it is odd:
    both halves of the bar round down. *)
Theorem progress_bar_width (pct : Z) :
  0 <= pct <= 100 ->
  Z.of_nat (String.length (progress_bar pct)) = 52 - pct mod 2.
Proof.
  intros H. unfold progress_bar, repeat_str.
  cbn [append String.length]. rewrite !length_append.
  rewrite !length_repeat_char. cbn [String.length].
  pose proof (Z.div_mod pct 2). pose proof (Z.mod_pos_bound pct 2).
  pose proof (Z.div_mod (100 - pct) 2). pose proof (Z.mod_pos_bound (100 - pct) 2).
  assert ((100 - pct) mod 2 = pct mod 2).
  { replace (100 - pct) with (pct + (50 - pct) * 2) by lia.
    now rewrite Z.mod_add by lia. }
  assert (0 <= pct / 2) by (apply Z.div_pos; lia).
  assert (0 <= (100 - pct) / 2) by (apply Z.div_pos; lia).
  lia.
Qed.

Lemma progress_bar_width_witness :
  0 <= 37 <= 100 /\ Z.of_nat (String.length (progress_bar 37)) = 52 - 37 mod 2.
Proof.
  split; [lia | ]. apply progress_bar_width. lia.
Defined.

(** ** The answer to the loader upload *)

Lemma image_write_follows_loader_witness :
  well about_to_upload
  /\ (sendline (ul_command (self about_to_upload)) ;;
      upgrade_loader 103 ;; ret tt) about_to_upload
     = Returned tt uploaded
  /\ In (wl_command (self about_to_upload) ++ newline)
       (sent (trace (final (send_upgrade_commands 0 103 about_to_upload)))).
Proof.
  assert (W : well about_to_upload) by (unfold well; cbn; discriminate).
  assert (H : (sendline (ul_command (self about_to_upload)) ;;
               upgrade_loader 103 ;; ret tt) about_to_upload
              = Returned tt uploaded) by (vm_compute; reflexivity).
  split; [exact W | split; [exact H | ]].
  exact (image_write_follows_loader 0 103 about_to_upload uploaded W H).
Defined.

(** X12: [upgrade_loader] returns with exactly one verdict logged and
    nothing sent: success, or failure with the hint, or an unknown
    error.  There is no fourth way: a timeout of the wait ends in one of
    the three as well, by the text read so far. *)
Theorem upgrade_loader_returns (location : Z) (s s' : state) :
  upgrade_loader location s = Returned tt s' ->
  trace s'
  = Logged INFO ("Upgrade loader for device in location " ++ str location
                   ++ " was successful.") :: trace s
  \/ trace s'
     = Logged INFO maskrom_hint
         :: Logged ERROR ("Upgrade loader command for device in location "
                            ++ str location ++ " failed.") :: trace s
  \/ trace s'
     = Logged ERROR ("Unknow error for device in location " ++ str location ++ ".")
         :: trace s.
Proof.
  rewrite upgrade_loader_body. unfold bind at 1.
  pose proof (preserves_expect _ (trace_is_frame (trace s))
                Pat.rockusb_prompt [P_TIMEOUT] (Some 500%nat) s eq_refl) as He.
  destruct (expect Pat.rockusb_prompt [P_TIMEOUT] (Some 500%nat) s)
    as [index s1|e s1|s1|s1]; try discriminate.
  cbn [final] in He. unfold trace_is in He. unfold bind at 1.
  pose proof (preserves_child_before (trace_is (trace s)) s1 He) as Hb.
  destruct (child_before s1) as [output s2|e s2|s2|s2]; try discriminate.
  cbn [final] in Hb. unfold trace_is in Hb.
  destruct (str_in "Upgrade loader ok" output);
    [ | destruct (str_in "Download Boot Fail" output)];
    cbv beta delta [bind logging emit] iota; intros [= <-]; cbn [trace];
    rewrite Hb; auto.
Qed.

Lemma upgrade_loader_returns_witness :
  exists s',
    upgrade_loader 103 about_to_upload = Returned tt s'
    /\ trace s'
       = Logged INFO maskrom_hint
           :: Logged ERROR ("Upgrade loader command for device in location "
                              ++ str 103 ++ " failed.") :: trace about_to_upload.
Proof.
  eexists. split; [vm_compute; reflexivity | ].
  destruct (upgrade_loader_returns 103 about_to_upload _ eq_refl)
    as [H | [H | H]]; [discriminate H | exact H | discriminate H].
Defined.
